(** * Guest list (invitados): the data-access layer of app.py and setup_db.py

    A shallow embedding of the SQL statements issued by [app.py] against the
    single table [invitados], of the trigger [trg_invitados_updated_at]
    installed by [init_db] / [setup_db.py], and of the Python glue around
    them (argument trimming, truthiness tests, return values).

    Conventions of the model.
    - A Python [str] is a [string] whose characters are the code points
      U+0000..U+00FF.  SQLite compares TEXT with the BINARY collation, which
      on this range is the order of the code points.
    - SQLite INTEGER values and Python [int]s are [Z].  The calls are
      described within the limits of the engine (64-bit integers, texts
      without U+0000 in LIKE, pattern length); these limits are stated in
      their own section, together with the 64-bit form of the totals, and
      appear as hypotheses where a property depends on them.
    - [CURRENT_TIMESTAMP] is an argument [now : Z] (seconds) of every
      statement that reads the clock.
    - The table is keyed by its [INTEGER PRIMARY KEY] (the rowid), so it is a
      finite map from ids to the remaining columns. *)

From Stdlib Require Import ZArith NArith Ascii String.
From stdpp Require Import base option list sorting gmap strings fin_maps.

Local Open Scope Z_scope.

(** ** Python strings *)

Module PyStr.

(** [str.isspace] on one character, restricted to code points below 256. *)
Definition isspace (c : ascii) : bool :=
  let n := N_of_ascii c in
  ((9 <=? n) && (n <=? 13) || (28 <=? n) && (n <=? 32)
   || (n =? 133) || (n =? 160))%N.

(** [s.lstrip()] *)
Fixpoint lstrip (s : string) : string :=
  match s with
  | EmptyString => EmptyString
  | String c s' => if isspace c then lstrip s' else s
  end.

(** [s.rstrip()] *)
Fixpoint rstrip (s : string) : string :=
  match s with
  | EmptyString => EmptyString
  | String c s' =>
      match rstrip s' with
      | EmptyString => if isspace c then EmptyString else String c EmptyString
      | r => String c r
      end
  end.

(** [s.strip()] *)
Definition strip (s : string) : string := rstrip (lstrip s).

(** Truth value of a [str]: the empty string is falsy. *)
Definition truthy (s : string) : bool :=
  match s with EmptyString => false | String _ _ => true end.

(** Truth value of an optional [str] argument ([None] is falsy too). *)
Definition truthy_opt (o : option string) : bool :=
  match o with None => false | Some s => truthy s end.

End PyStr.

(** ** The fragment of SQL used by the application *)

Module Sql.

(** SQL truth values: [None] is NULL. *)
Definition tv := option bool.

Definition or3 (a b : tv) : tv :=
  match a, b with
  | Some true, _ | _, Some true => Some true
  | Some false, Some false => Some false
  | _, _ => None
  end.

Definition and3 (a b : tv) : tv :=
  match a, b with
  | Some false, _ | _, Some false => Some false
  | Some true, Some true => Some true
  | _, _ => None
  end.

(** A WHERE clause keeps a row only when it evaluates to true. *)
Definition holds (v : tv) : bool :=
  match v with Some true => true | _ => false end.

(** LIKE folds case on ASCII letters only. *)
Definition lower (c : ascii) : ascii :=
  let n := N_of_ascii c in
  if ((65 <=? n) && (n <=? 90))%N then ascii_of_N (n + 32) else c.

Definition eq_nocase (a b : ascii) : bool := Ascii.eqb (lower a) (lower b).

Definition any_seq : ascii := "%"%char.
Definition any_one : ascii := "_"%char.

(** [like p t]: the text [t] matches the pattern [p].  [%] stands for any
    run of characters, [_] for exactly one, every other character for
    itself up to ASCII case.  No ESCAPE character is given in the source. *)
Fixpoint like (p : string) : string -> bool :=
  match p with
  | EmptyString => fun t => negb (PyStr.truthy t)
  | String c p' =>
      if Ascii.eqb c any_seq then
        fix skip (t : string) : bool :=
          like p' t || match t with
                       | EmptyString => false
                       | String _ t' => skip t'
                       end
      else if Ascii.eqb c any_one then
        fun t => match t with
                 | EmptyString => false
                 | String _ t' => like p' t'
                 end
      else
        fun t => match t with
                 | EmptyString => false
                 | String d t' => eq_nocase c d && like p' t'
                 end
  end.

(** [X LIKE pat] on a nullable column. *)
Definition like3 (x : option string) (pat : string) : tv := like pat <$> x.

(** [SUM(e)] over the selected rows: NULL when there is none. *)
Definition sum (l : list Z) : option Z :=
  match l with
  | [] => None
  | _ => Some (foldr Z.add 0 l)
  end.

(** [COALESCE(x, d)] *)
Definition coalesce (x : option Z) (d : Z) : option Z :=
  match x with Some v => Some v | None => Some d end.

End Sql.

(** ** Schema *)

(** The columns of [invitados] other than [id]. *)
Record guest := Guest {
  nombre : string;
  apellidos : string;
  telefono : option string;
  correo : option string;
  asistira : Z;
  acompanantes : Z;
  created_at : Z;
  updated_at : Z
}.

(** The database file: the table, the AUTOINCREMENT counter kept in
    [sqlite_sequence], and whether the trigger is installed. *)
Record DB := Db {
  invitados : gmap Z guest;
  seq : Z;
  trigger_installed : bool
}.

(** A database file on which no schema statement has run. *)
Definition empty_db : DB := Db ∅ 0 false.

(** [init_db]: CREATE TABLE IF NOT EXISTS keeps an existing table; the
    trigger is dropped and created again. *)
Definition init_db (db : DB) : DB :=
  Db (invitados db) (seq db) true.

Definition with_table (t : gmap Z guest) (db : DB) : DB :=
  Db t (seq db) (trigger_installed db).

(** ** UPDATE statements and the trigger *)

Definition set_updated_at (now : Z) (g : guest) : guest :=
  Guest (nombre g) (apellidos g) (telefono g) (correo g) (asistira g)
        (acompanantes g) (created_at g) now.

(** [WHEN NEW.updated_at = OLD.updated_at] *)
Definition trg_when (old new : guest) : bool :=
  updated_at new =? updated_at old.

(** [PRAGMA recursive_triggers]: off unless a PRAGMA turns it on; neither
    [app.py] nor [setup_db.py] does, and [get_conn] opens a fresh connection
    for every call. *)
Definition recursive_triggers : bool := false.

(** SQLITE_MAX_TRIGGER_DEPTH *)
Definition max_trigger_depth : nat := 1000.

(** [UPDATE invitados SET ... WHERE id = i].  [nested] tells whether the
    statement runs inside a trigger body, [rec] is the recursive-triggers
    setting, [trg] whether [trg_invitados_updated_at] exists.  The result is
    the table and the ids for which the trigger body ran, in order; [None]
    when the nesting exceeds [depth] (SQLite aborts the statement). *)
Fixpoint update_by_id (depth : nat) (nested rec : bool) (now : Z) (trg : bool)
    (i : Z) (set_ : guest -> guest) (t : gmap Z guest)
    : option (gmap Z guest * list Z) :=
  match t !! i with
  | None => Some (t, [])
  | Some old =>
      let new := set_ old in
      let t1 := <[i := new]> t in
      (* AFTER UPDATE ... FOR EACH ROW WHEN NEW.updated_at = OLD.updated_at *)
      if trg && (negb nested || rec) && trg_when old new then
        match depth with
        | O => None
        | S d =>
            (* BEGIN UPDATE invitados SET updated_at = CURRENT_TIMESTAMP
                      WHERE id = OLD.id; END *)
            '(t2, fired) ← update_by_id d true rec now trg i (set_updated_at now) t1;
            Some (t2, i :: fired)
        end
      else Some (t1, [])
  end.

(** A statement issued by the application runs at the top level, on a
    connection with the default settings. *)
Definition sql_update : Z -> bool -> Z -> (guest -> guest) -> gmap Z guest
    -> option (gmap Z guest * list Z) :=
  update_by_id max_trigger_depth false recursive_triggers.

(** ** Results of the Python functions *)

Inductive error := ValidationError | NotFound | StorageUnavailable.

Inductive pyval := PyNone | PyInt (n : Z).

Inductive outcome :=
  | Return (v : pyval) (db : DB)
  | Raise (e : error).

Definition int_of_bool (b : bool) : Z := if b then 1 else 0.

(** [x.strip() if x else None] *)
Definition strip_or_none (x : option string) : option string :=
  match x with
  | Some s => if PyStr.truthy s then Some (PyStr.strip s) else None
  | None => None
  end.

(** ** Record store *)

(** Largest rowid in the table (0 when empty). *)
Definition max_rowid (t : gmap Z guest) : Z :=
  map_fold (fun k _ m => Z.max k m) 0 t.

(** AUTOINCREMENT: one more than the largest rowid that ever existed. *)
Definition next_id (db : DB) : Z :=
  Z.max (seq db) (max_rowid (invitados db)) + 1.

Definition insertar_invitado (now : Z) (nombre_ apellidos_ : string)
    (telefono_ correo_ : option string) (asistira_ : bool) (acompanantes_ : Z)
    (db : DB) : outcome :=
  let i := next_id db in
  let g := Guest (PyStr.strip nombre_) (PyStr.strip apellidos_)
                 (strip_or_none telefono_) (strip_or_none correo_)
                 (int_of_bool asistira_) acompanantes_ now now in
  Return PyNone (Db (<[i := g]> (invitados db)) i (trigger_installed db)).

(** The SET clause of [actualizar_invitado]. *)
Definition set_editable (nombre_ apellidos_ : string)
    (telefono_ correo_ : option string) (asistira_ : bool) (acompanantes_ : Z)
    (g : guest) : guest :=
  Guest (PyStr.strip nombre_) (PyStr.strip apellidos_)
        (strip_or_none telefono_) (strip_or_none correo_)
        (int_of_bool asistira_) acompanantes_ (created_at g) (updated_at g).

(** The UPDATE statement of [actualizar_invitado], with the trigger log. *)
Definition actualizar_stmt (now : Z) (id_ : Z) (nombre_ apellidos_ : string)
    (telefono_ correo_ : option string) (asistira_ : bool) (acompanantes_ : Z)
    (db : DB) : option (gmap Z guest * list Z) :=
  sql_update now (trigger_installed db) id_
    (set_editable nombre_ apellidos_ telefono_ correo_ asistira_ acompanantes_)
    (invitados db).

(** No row count is read back after the statement; the function has no
    [return], so it yields [None].  An error of the engine surfaces as an
    exception. *)
Definition actualizar_invitado (now : Z) (id_ : Z) (nombre_ apellidos_ : string)
    (telefono_ correo_ : option string) (asistira_ : bool) (acompanantes_ : Z)
    (db : DB) : outcome :=
  match actualizar_stmt now id_ nombre_ apellidos_ telefono_ correo_
                        asistira_ acompanantes_ db with
  | Some (t, _) => Return PyNone (with_table t db)
  | None => Raise StorageUnavailable
  end.

Definition eliminar_invitado (id_ : Z) (db : DB) : outcome :=
  Return PyNone (with_table (delete id_ (invitados db)) db).

(** A row of a result set: [id] followed by the other columns. *)
Definition fila : Type := Z * guest.

(** [filtro = f"%{filtro_texto.strip()}%" if filtro_texto else "%"] *)
Definition filtro_de (filtro_texto : string) : string :=
  if PyStr.truthy filtro_texto
  then String Sql.any_seq (PyStr.strip filtro_texto ++ String Sql.any_seq EmptyString)
  else String Sql.any_seq EmptyString.

(** [(nombre LIKE ? OR apellidos LIKE ? OR telefono LIKE ? OR correo LIKE ?)],
    followed by [AND asistira = 1] when [solo_confirmados]. *)
Definition where_listar (filtro : string) (solo_confirmados : bool) (r : fila)
    : Sql.tv :=
  let g := r.2 in
  let w := Sql.or3 (Sql.or3 (Sql.or3 (Sql.like3 (Some (nombre g)) filtro)
                                     (Sql.like3 (Some (apellidos g)) filtro))
                            (Sql.like3 (telefono g) filtro))
                   (Sql.like3 (correo g) filtro) in
  if solo_confirmados then Sql.and3 w (Some (asistira g =? 1)) else w.

(** Lexicographic order on TEXT under the BINARY collation. *)
Definition text_cmp : string -> string -> comparison := String.compare.

(** [ORDER BY apellidos, nombre, id DESC]: [r1] may come before [r2]. *)
Definition order_listar_b (r1 r2 : fila) : bool :=
  match text_cmp (apellidos r1.2) (apellidos r2.2) with
  | Lt => true
  | Gt => false
  | Eq =>
      match text_cmp (nombre r1.2) (nombre r2.2) with
      | Lt => true
      | Gt => false
      | Eq => r2.1 <=? r1.1
      end
  end.

Definition order_listar (r1 r2 : fila) : Prop := order_listar_b r1 r2.

(** The result set of the SELECT, as the data frame holds it. *)
Definition listar_invitados (filtro_texto : string) (solo_confirmados : bool)
    (db : DB) : list fila :=
  let filtro := filtro_de filtro_texto in
  merge_sort order_listar
    (filter (fun r => Sql.holds (where_listar filtro solo_confirmados r))
            (map_to_list (invitados db))).

(** ** Aggregator *)

(** Python's [x or 0] on a fetched integer column. *)
Definition or_0 (x : option Z) : Z :=
  match x with
  | Some v => if v =? 0 then 0 else v
  | None => 0
  end.

Definition contar_totales (db : DB) : Z * Z * Z :=
  let gs := (map_to_list (invitados db)).*2 in
  let total := Some (Z.of_nat (length gs)) in
  let confirmados :=
    Sql.sum ((fun g => if asistira g =? 1 then 1 else 0) <$> gs) in
  let acomp :=
    Sql.coalesce
      (Sql.sum ((fun g => if asistira g =? 1 then acompanantes g else 0) <$> gs))
      0 in
  (or_0 total, or_0 confirmados, or_0 acomp).

(** ** The form handlers that call the record store *)

Inductive feedback :=
  | st_error (msg : string)
  | st_success (msg : string)
  | st_warning (msg : string)
  | st_exception (e : error).

(** The options of the select box; the handlers pass [asistira == "Si"]. *)
Inductive opcion := No_sabe_No | Si.

Definition es_si (o : opcion) : bool :=
  match o with Si => true | No_sabe_No => false end.

(** The body of [if submitted:] in the sidebar form. *)
Definition alta_submit (now : Z) (nombre_ apellidos_ telefono_ correo_ : string)
    (asistira_ : opcion) (acompanantes_ : Z) (db : DB) : feedback * DB :=
  if negb (PyStr.truthy (PyStr.strip nombre_))
     || negb (PyStr.truthy (PyStr.strip apellidos_))
  then (st_error "Los campos *Nombre* y *Apellidos* son obligatorios.", db)
  else
    match insertar_invitado now nombre_ apellidos_ (Some telefono_)
                            (Some correo_) (es_si asistira_) acompanantes_ db with
    | Return _ db' =>
        (st_success ("Invitado agregado: " ++ nombre_ ++ " " ++ apellidos_), db')
    | Raise e => (st_exception e, db)
    end.

(** A guest counts as confirmed when [asistira = 1]. *)
Definition confirmado (g : guest) : bool := asistira g =? 1.

(** The stored guests, in the order the table is scanned. *)
Definition guests (db : DB) : list guest := (map_to_list (invitados db)).*2.

(** Sum of a list of integers. *)
Definition total_of (l : list Z) : Z := foldr Z.add 0 l.

(** [a] sorts strictly before [b] (code point by code point; a proper prefix
    sorts first). *)
Definition text_lt (a b : string) : Prop := text_cmp a b = Lt.

(** The ORDER BY clause read as a relation between rows: last name
    ascending, then first name ascending, then id descending. *)
Definition ordered_before (r1 r2 : fila) : Prop :=
  text_lt (apellidos r1.2) (apellidos r2.2)
  ∨ (apellidos r1.2 = apellidos r2.2
     ∧ (text_lt (nombre r1.2) (nombre r2.2)
        ∨ (nombre r1.2 = nombre r2.2 ∧ r2.1 ≤ r1.1))).

(** ** Substring search, as the specification words the filter *)

(** [text_lower s]: [s] with its ASCII capitals folded. *)
Fixpoint text_lower (s : string) : string :=
  match s with
  | EmptyString => EmptyString
  | String c s' => String (Sql.lower c) (text_lower s')
  end.

(** [s] occurs in [t] up to ASCII case. *)
Definition ci_substring (s t : string) : Prop :=
  ∃ before found after,
    t = (before ++ found ++ after)%string ∧ text_lower found = text_lower s.

(** [s] is a prefix of [t] up to ASCII case. *)
Fixpoint ci_prefix (s t : string) : bool :=
  match s, t with
  | EmptyString, _ => true
  | String _ _, EmptyString => false
  | String c s', String d t' => Sql.eq_nocase c d && ci_prefix s' t'
  end.

(** Decision procedure for [ci_substring]. *)
Fixpoint ci_infix (s t : string) : bool :=
  ci_prefix s t
  || match t with
     | EmptyString => false
     | String _ t' => ci_infix s t'
     end.

(** The text holds neither of the two LIKE wildcards. *)
Fixpoint no_wildcard (s : string) : bool :=
  match s with
  | EmptyString => true
  | String c s' =>
      negb (Ascii.eqb c Sql.any_seq) && negb (Ascii.eqb c Sql.any_one)
      && no_wildcard s'
  end.

(** The text occurs in the first name, the last name, the telephone or the
    e-mail address of the guest; an absent telephone or address holds no
    text. *)
Definition coincide (s : string) (g : guest) : bool :=
  ci_infix s (nombre g) || ci_infix s (apellidos g)
  || from_option (ci_infix s) false (telefono g)
  || from_option (ci_infix s) false (correo g).

(** The pattern matches one of the four columns. *)
Definition coincide_like (pat : string) (g : guest) : bool :=
  Sql.like pat (nombre g) || Sql.like pat (apellidos g)
  || from_option (Sql.like pat) false (telefono g)
  || from_option (Sql.like pat) false (correo g).

(** ** What trimming means *)

(** The text consists of white space only. *)
Fixpoint all_space (s : string) : bool :=
  match s with
  | EmptyString => true
  | String c s' => PyStr.isspace c && all_space s'
  end.

Definition starts_with_space (s : string) : bool :=
  match s with
  | EmptyString => false
  | String c _ => PyStr.isspace c
  end.

Fixpoint ends_with_space (s : string) : bool :=
  match s with
  | EmptyString => false
  | String c EmptyString => PyStr.isspace c
  | String _ s' => ends_with_space s'
  end.

(** ** A worked scenario *)

(** The database an operation leaves behind ([db] itself if it raised). *)
Definition db_after (o : outcome) (db : DB) : DB :=
  match o with Return _ db' => db' | Raise _ => db end.

(** Start-up on a new file, then two guests added at times 100 and 101. *)
Definition db_inicial : DB := init_db empty_db.

Definition db_ana : DB :=
  db_after (insertar_invitado 100 "Ana" "Perez" None None false 0 db_inicial)
           db_inicial.

Definition db_ana_luis : DB :=
  db_after (insertar_invitado 101 "Luis" "Gomez" (Some "555") (Some "l@x.com")
                              true 2 db_ana)
           db_ana.

(** ** The handlers of the edit form *)

(** The body of [if st.button("Guardar cambios")] for the listed row with id
    [row_id]; the messages are kept as their UTF-8 bytes. *)
Definition guardar_cambios (now : Z) (row_id : Z)
    (nombre_e apellidos_e telefono_e correo_e : string) (asistira_e : opcion)
    (acompanantes_e : Z) (db : DB) : feedback * DB :=
  if negb (PyStr.truthy (PyStr.strip nombre_e))
     || negb (PyStr.truthy (PyStr.strip apellidos_e))
  then (st_error "Nombre y Apellidos son obligatorios.", db)
  else
    match actualizar_invitado now row_id nombre_e apellidos_e (Some telefono_e)
                              (Some correo_e) (es_si asistira_e) acompanantes_e
                              db with
    | Return _ db' =>
        (st_success
           "Cambios guardados. Actualiza la página para ver reflejados los cambios.",
         db')
    | Raise e => (st_exception e, db)
    end.

(** The body of [if st.button("Eliminar")] for the listed row with id
    [row_id]. *)
Definition eliminar_click (row_id : Z) (db : DB) : feedback * DB :=
  match eliminar_invitado row_id db with
  | Return _ db' =>
      (st_warning
         "Invitado eliminado. Actualiza la página para refrescar la lista.",
       db')
  | Raise e => (st_exception e, db)
  end.

(** ** Sequences of calls *)

(** One call of the record store. *)
Inductive op :=
  | Insertar (nombre_ apellidos_ : string) (telefono_ correo_ : option string)
             (asistira_ : bool) (acompanantes_ : Z)
  | Actualizar (id_ : Z) (nombre_ apellidos_ : string)
               (telefono_ correo_ : option string) (asistira_ : bool)
               (acompanantes_ : Z)
  | Eliminar (id_ : Z).

Definition ejecutar (now : Z) (o : op) (db : DB) : outcome :=
  match o with
  | Insertar n a te co s k => insertar_invitado now n a te co s k db
  | Actualizar i n a te co s k => actualizar_invitado now i n a te co s k db
  | Eliminar i => eliminar_invitado i db
  end.

(** The calls of [ops] one after the other, each at its own clock value. *)
Fixpoint correr (ops : list (Z * op)) (db : DB) : DB :=
  match ops with
  | [] => db
  | (now, o) :: rest => correr rest (db_after (ejecutar now o db) db)
  end.

(** One user action on the page. *)
Inductive evento :=
  | Alta (nombre_ apellidos_ telefono_ correo_ : string) (asistira_ : opcion)
         (acompanantes_ : Z)
  | Guardar (row_id : Z) (nombre_e apellidos_e telefono_e correo_e : string)
            (asistira_e : opcion) (acompanantes_e : Z)
  | Borrar (row_id : Z).

Definition manejar (now : Z) (e : evento) (db : DB) : feedback * DB :=
  match e with
  | Alta n a te co s k => alta_submit now n a te co s k db
  | Guardar i n a te co s k => guardar_cambios now i n a te co s k db
  | Borrar i => eliminar_click i db
  end.

(** The page after a sequence of user actions. *)
Fixpoint sesion (es : list (Z * evento)) (db : DB) : DB :=
  match es with
  | [] => db
  | (now, e) :: rest => sesion rest (manejar now e db).2
  end.

(** The clock values of a sequence never go backwards and start at [t0] or
    later. *)
Fixpoint reloj_ok {A} (t0 : Z) (l : list (Z * A)) : Prop :=
  match l with
  | [] => True
  | (now, _) :: rest => t0 ≤ now ∧ reloj_ok now rest
  end.

(** The clock value after the sequence. *)
Fixpoint reloj_final {A} (t0 : Z) (l : list (Z * A)) : Z :=
  match l with
  | [] => t0
  | (now, _) :: rest => reloj_final now rest
  end.

(** ** Properties of a database state *)

(** At clock value [T]: every stored id is covered by the AUTOINCREMENT
    counter, [asistira] is 0 or 1, and the time stamps are in order and not
    in the future. *)
Definition estado_ok (T : Z) (db : DB) : Prop :=
  ∀ k g, invitados db !! k = Some g →
    k ≤ seq db
    ∧ (asistira g = 0 ∨ asistira g = 1)
    ∧ created_at g ≤ updated_at g ∧ updated_at g ≤ T.

(** Every stored name is non-empty and has no white space at either end. *)
Definition nombres_ok (db : DB) : Prop :=
  ∀ k g, invitados db !! k = Some g →
    nombre g ≠ EmptyString ∧ apellidos g ≠ EmptyString
    ∧ starts_with_space (nombre g) = false
    ∧ ends_with_space (nombre g) = false
    ∧ starts_with_space (apellidos g) = false
    ∧ ends_with_space (apellidos g) = false.

(** ** Limits of the engine

    The definitions above describe each call as long as the limits of the
    [sqlite3] module and of SQLite are respected; beyond them the call
    raises and writes nothing.  The limits the properties below depend on
    are stated here. *)

Definition int64_min : Z := -9223372036854775808.
Definition int64_max : Z := 9223372036854775807.

(** The integer fits a signed 64-bit word.  An [int] outside this range
    cannot be bound as a parameter ([OverflowError]), and no rowid lies
    outside it. *)
Definition int64 (z : Z) : bool := (int64_min <=? z) && (z <=? int64_max).

(** The text holds no U+0000.  LIKE reads its text and its pattern only up
    to the first U+0000. *)
Fixpoint sin_nul (s : string) : bool :=
  match s with
  | EmptyString => true
  | String c s' => negb (Ascii.eqb c "000"%char) && sin_nul s'
  end.

(** No stored text holds U+0000. *)
Definition textos_sin_nul (db : DB) : Prop :=
  ∀ k g, invitados db !! k = Some g →
    sin_nul (nombre g) ∧ sin_nul (apellidos g)
    ∧ from_option sin_nul true (telefono g)
    ∧ from_option sin_nul true (correo g).

(** Length in bytes of the UTF-8 encoding. *)
Fixpoint utf8_length (s : string) : Z :=
  match s with
  | EmptyString => 0
  | String c s' => (if (N_of_ascii c <? 128)%N then 1 else 2) + utf8_length s'
  end.

(** SQLITE_MAX_LIKE_PATTERN_LENGTH: a longer pattern makes LIKE fail. *)
Definition max_like_pattern_length : Z := 50000.

(** The pattern built from the filter is one LIKE accepts and reads in
    full. *)
Definition patron_ok (filtro_texto : string) : bool :=
  sin_nul (filtro_de filtro_texto)
  && (utf8_length (filtro_de filtro_texto) <=? max_like_pattern_length).

(** [SUM] adds in a signed 64-bit word, row after row; [None] when a
    step overflows. *)
Fixpoint sum64_from (acc : Z) (l : list Z) : option Z :=
  match l with
  | [] => Some acc
  | x :: l' => if int64 (acc + x) then sum64_from (acc + x) l' else None
  end.

(** [SUM(e)] as the engine computes it: the outer [None] is the error
    "integer overflow", the inner one is NULL (no row). *)
Definition sum64 (l : list Z) : option (option Z) :=
  match l with
  | [] => Some None
  | _ => Some <$> sum64_from 0 l
  end.

(** The table is scanned in the order of the rowid. *)
Definition por_id (r1 r2 : fila) : Prop := r1.1 <=? r2.1.

Definition filas_por_id (db : DB) : list fila :=
  merge_sort por_id (map_to_list (invitados db)).

(** [contar_totales] with the 64-bit sums of the engine: [None] when the
    query fails with "integer overflow" ([sqlite3.OperationalError]). *)
Definition contar_totales_int64 (db : DB) : option (Z * Z * Z) :=
  let gs := (filas_por_id db).*2 in
  let total := Some (Z.of_nat (length gs)) in
  confirmados ← sum64 ((fun g => if asistira g =? 1 then 1 else 0) <$> gs);
  acomp ← sum64 ((fun g => if asistira g =? 1 then acompanantes g else 0) <$> gs);
  Some (or_0 total, or_0 confirmados, or_0 (Sql.coalesce acomp 0)).

(** Two confirmed guests, each with the largest number of companions that
    can be stored. *)
Definition db_desborde : DB :=
  let db1 :=
    db_after (insertar_invitado 100 "Ana" "Perez" None None true int64_max
                                db_inicial) db_inicial in
  db_after (insertar_invitado 101 "Luis" "Gomez" None None true int64_max db1)
           db1.

(** * Properties *)

(** ** Engine lemmas *)

Lemma with_table_same (db : DB) : with_table (invitados db) db = db.
Proof. by destruct db. Qed.

Lemma max_rowid_ub (t : gmap Z guest) (k : Z) (g : guest) :
  t !! k = Some g → k ≤ max_rowid t.
Proof.
  unfold max_rowid. revert k g.
  apply (map_fold_weak_ind
           (fun m (t : gmap Z guest) => ∀ k g, t !! k = Some g → k ≤ m)).
  - intros k g Hk. by rewrite lookup_empty in Hk.
  - intros i x m r _ IH k g Hk.
    destruct (decide (i = k)) as [->|Hne]; [lia|].
    rewrite lookup_insert_ne in Hk by done.
    specialize (IH k g Hk). lia.
Qed.

Lemma next_id_above (db : DB) (k : Z) (g : guest) :
  invitados db !! k = Some g → k < next_id db.
Proof. intros Hk%max_rowid_ub. unfold next_id. lia. Qed.

Lemma next_id_fresh (db : DB) : invitados db !! next_id db = None.
Proof.
  destruct (invitados db !! next_id db) as [g|] eqn:E; [|done].
  apply next_id_above in E. lia.
Qed.

Section update_statement.
Context (now : Z) (trg : bool) (i : Z) (set_ : guest → guest).
Context (t : gmap Z guest).

(** An UPDATE whose WHERE clause selects no row changes nothing. *)
Lemma sql_update_absent :
  t !! i = None → sql_update now trg i set_ t = Some (t, []).
Proof.
  intros E. unfold sql_update.
  destruct max_trigger_depth; cbn [update_by_id]; by rewrite E.
Qed.

(** The statement inside the trigger body does not fire the trigger. *)
Lemma update_nested (d : nat) (old : guest) :
  t !! i = Some old →
  update_by_id d true recursive_triggers now trg i set_ t
  = Some (<[i := set_ old]> t, []).
Proof.
  intros E. unfold recursive_triggers.
  destruct d; cbn [update_by_id]; rewrite E; cbn [negb orb];
    by rewrite andb_false_r.
Qed.
End update_statement.

(** Closed form of a top-level UPDATE on a stored row. *)
Lemma sql_update_present (now : Z) (trg : bool) (i : Z) (set_ : guest → guest)
    (t : gmap Z guest) (old : guest) :
  t !! i = Some old →
  sql_update now trg i set_ t
  = Some (if trg && trg_when old (set_ old)
          then (<[i := set_updated_at now (set_ old)]> t, [i])
          else (<[i := set_ old]> t, [])).
Proof.
  intros E. unfold sql_update.
  assert (∃ d, max_trigger_depth = S d) as [d ->] by (by eexists).
  cbn [update_by_id]. rewrite E. cbn [negb orb]. rewrite andb_true_r.
  destruct (trg && trg_when old (set_ old)); [|done].
  rewrite (update_nested now trg i (set_updated_at now) _ d (set_ old))
    by apply lookup_insert_eq.
  cbn [mbind option_bind]. by rewrite insert_insert_eq.
Qed.

(** The SET clause of the application never touches the time stamps. *)
Lemma set_editable_stamps n a te co s k (g : guest) :
  created_at (set_editable n a te co s k g) = created_at g
  ∧ updated_at (set_editable n a te co s k g) = updated_at g.
Proof. done. Qed.

Lemma trg_when_set_editable n a te co s k (g : guest) :
  trg_when g (set_editable n a te co s k g) = true.
Proof. unfold trg_when. simpl. apply Z.eqb_refl. Qed.

(** ** Trimming *)

Lemma lstrip_spec (s : string) :
  ∃ l, s = (l ++ PyStr.lstrip s)%string
       ∧ all_space l
       ∧ starts_with_space (PyStr.lstrip s) = false.
Proof.
  induction s as [|c s (l & Hs & Hl & Hstart)].
  { by exists EmptyString. }
  cbn [PyStr.lstrip]. destruct (PyStr.isspace c) eqn:Ec.
  - exists (String c l). split; [by rewrite Hs at 1|].
    split; [|done]. cbn [all_space]. by rewrite Ec.
  - exists EmptyString. by rewrite <-Ec.
Qed.

Lemma rstrip_spec (s : string) :
  ∃ r, s = (PyStr.rstrip s ++ r)%string
       ∧ all_space r
       ∧ ends_with_space (PyStr.rstrip s) = false.
Proof.
  induction s as [|c s (r & Hs & Hr & Hend)].
  { by exists EmptyString. }
  cbn [PyStr.rstrip]. destruct (PyStr.rstrip s) as [|d q] eqn:Eq.
  - destruct (PyStr.isspace c) eqn:Ec.
    + exists (String c s). split; [done|]. split; [|done].
      cbn [all_space]. rewrite Ec. by rewrite Hs.
    + exists s. split; [done|]. split; [by rewrite Hs|]. by rewrite <-Ec.
  - exists r. split; [by rewrite Hs at 1|]. by split.
Qed.

Lemma rstrip_keeps_start (s : string) :
  starts_with_space s = false → starts_with_space (PyStr.rstrip s) = false.
Proof.
  destruct s as [|c s]; [done|]. cbn [PyStr.rstrip starts_with_space].
  intros Ec. destruct (PyStr.rstrip s); [|done]. by rewrite Ec.
Qed.

(** [strip] removes a run of white space at each end and leaves a text that
    neither starts nor ends with white space. *)
Lemma strip_spec (s : string) :
  ∃ l r, s = (l ++ PyStr.strip s ++ r)%string
         ∧ all_space l ∧ all_space r
         ∧ starts_with_space (PyStr.strip s) = false
         ∧ ends_with_space (PyStr.strip s) = false.
Proof.
  destruct (lstrip_spec s) as (l & Hs & Hl & Hstart).
  destruct (rstrip_spec (PyStr.lstrip s)) as (r & Hm & Hr & Hend).
  exists l, r. unfold PyStr.strip.
  split; [by rewrite <-Hm|]. auto using rstrip_keeps_start.
Qed.

(** ** Update and delete of an id that is not stored *)

(** C1, counterexample: on a table without id 7 the update does not signal
    [NotFound]. *)
Lemma actualizar_absent_not_signalled :
  invitados db_ana_luis !! 7 = None
  ∧ actualizar_invitado 200 7 "Ana" "Perez" (Some "") (Some "") true 1 db_ana_luis
    ≠ Raise NotFound.
Proof. split; [by vm_compute | discriminate]. Qed.

(** C1, as amended: for every id that matches no stored row, the id and
    [acompanantes] fitting a signed 64-bit integer (so that they can be
    bound), [actualizar_invitado] completes normally, returns [None] without
    signalling anything, and leaves the database exactly as it was. *)
Theorem actualizar_absent_silent_noop (now id_ : Z) (n a : string)
    (te co : option string) (s : bool) (k : Z) (db : DB) :
  int64 id_ → int64 k →
  invitados db !! id_ = None →
  actualizar_invitado now id_ n a te co s k db = Return PyNone db.
Proof.
  intros _ _ E. unfold actualizar_invitado, actualizar_stmt.
  rewrite sql_update_absent by done. by rewrite with_table_same.
Qed.

Lemma actualizar_absent_silent_noop_witness :
  (int64 7 ∧ int64 1 ∧ invitados db_ana_luis !! 7 = None)
  ∧ actualizar_invitado 200 7 "Ana" "Perez" (Some "") (Some "") true 1 db_ana_luis
    = Return PyNone db_ana_luis.
Proof.
  split; [by vm_compute|].
  apply (actualizar_absent_silent_noop 200 7 "Ana" "Perez" (Some "") (Some "")
           true 1 db_ana_luis); by vm_compute.
Defined.

(** C2, counterexample: deleting id 2 twice; the second call, on a table
    that no longer stores id 2, does not signal [NotFound]. *)
Lemma eliminar_absent_not_signalled :
  let db1 := db_after (eliminar_invitado 2 db_ana_luis) db_ana_luis in
  invitados db1 !! 2 = None ∧ eliminar_invitado 2 db1 ≠ Raise NotFound.
Proof. split; [by vm_compute | discriminate]. Qed.

(** C2, as amended: for every id that fits a signed 64-bit integer (so that
    it can be bound) and matches no stored row (in particular after a first
    delete of that id), [eliminar_invitado] completes normally, returns
    [None] without signalling anything, and leaves the database unchanged. *)
Theorem eliminar_absent_silent_noop (id_ : Z) (db : DB) :
  int64 id_ →
  (invitados db !! id_ = None → eliminar_invitado id_ db = Return PyNone db)
  ∧ (∀ db1, eliminar_invitado id_ db = Return PyNone db1 →
            invitados db1 !! id_ = None
            ∧ eliminar_invitado id_ db1 = Return PyNone db1).
Proof.
  intros _.
  assert (∀ d, invitados d !! id_ = None →
               eliminar_invitado id_ d = Return PyNone d) as Hnoop.
  { intros d E. unfold eliminar_invitado.
    by rewrite delete_id, with_table_same. }
  split; [apply Hnoop|].
  intros db1 [= <-].
  assert (invitados (with_table (delete id_ (invitados db)) db) !! id_ = None)
    as E by apply lookup_delete_eq.
  split; [done | by apply Hnoop].
Qed.

Lemma eliminar_absent_silent_noop_witness :
  (int64 2 ∧ invitados db_ana !! 2 = None)
  ∧ eliminar_invitado 2 db_ana = Return PyNone db_ana.
Proof.
  split; [by vm_compute|].
  apply (proj1 (eliminar_absent_silent_noop 2 db_ana ltac:(by vm_compute))).
  by vm_compute.
Defined.

(** ** Insert *)

(** The row that [insertar_invitado] stores and the database it leaves. *)
Lemma insertar_invitado_eq (now : Z) (n a : string) (te co : option string)
    (s : bool) (k : Z) (db : DB) :
  insertar_invitado now n a te co s k db
  = Return PyNone
      (Db (<[next_id db :=
               Guest (PyStr.strip n) (PyStr.strip a) (strip_or_none te)
                     (strip_or_none co) (int_of_bool s) k now now]>
             (invitados db))
          (next_id db) (trigger_installed db)).
Proof. done. Qed.

(** C3, counterexample: a first name of blanks is stored, as the empty
    string, and no [ValidationError] is raised. *)
Lemma insertar_blank_name_accepted :
  PyStr.strip "  " = ""
  ∧ insertar_invitado 100 "  " "Perez" None None false 0 db_inicial
    ≠ Raise ValidationError
  ∧ nombre <$> invitados
      (db_after (insertar_invitado 100 "  " "Perez" None None false 0 db_inicial)
                db_inicial) !! 1
    = Some "".
Proof. split; [done|]. split; [discriminate | by vm_compute]. Qed.

(** C3, as amended: for every input where first_name or last_name trims to
    the empty string, the form handler in front of the insert rejects it with
    an error message and stores no row; [insertar_invitado] itself does not
    validate: called directly, with [acompanantes] and the next id within the
    signed 64-bit range (so that the statement can run), it raises nothing
    and stores the row under a fresh id with the (empty) trimmed name. *)
Theorem blank_name_rejected_by_form_only (now : Z) (n a te co : string)
    (s : opcion) (k : Z) (db : DB) :
  PyStr.strip n = "" ∨ PyStr.strip a = "" →
  alta_submit now n a te co s k db
  = (st_error "Los campos *Nombre* y *Apellidos* son obligatorios.", db)
  ∧ (int64 k → int64 (next_id db) →
     ∃ db' g,
       insertar_invitado now n a (Some te) (Some co) (es_si s) k db
       = Return PyNone db'
       ∧ invitados db !! next_id db = None
       ∧ invitados db' !! next_id db = Some g
       ∧ nombre g = PyStr.strip n ∧ apellidos g = PyStr.strip a).
Proof.
  intros Hblank. split.
  - unfold alta_submit. by destruct Hblank as [-> | ->]; rewrite ?orb_true_r.
  - intros _ _. rewrite insertar_invitado_eq. eexists _, _. split; [done|].
    split; [apply next_id_fresh|]. simpl. by rewrite lookup_insert_eq.
Qed.

Lemma blank_name_rejected_by_form_only_witness :
  ((PyStr.strip "  " = "" ∨ PyStr.strip "Perez" = "")
   ∧ int64 0 ∧ int64 (next_id db_inicial))
  ∧ alta_submit 100 "  " "Perez" "" "" Si 0 db_inicial
    = (st_error "Los campos *Nombre* y *Apellidos* son obligatorios.", db_inicial)
  ∧ ∃ db' g,
      insertar_invitado 100 "  " "Perez" (Some "") (Some "") true 0 db_inicial
      = Return PyNone db'
      ∧ invitados db_inicial !! next_id db_inicial = None
      ∧ invitados db' !! next_id db_inicial = Some g
      ∧ nombre g = PyStr.strip "  " ∧ apellidos g = PyStr.strip "Perez".
Proof.
  split; [split; [by left | by vm_compute]|].
  destruct (blank_name_rejected_by_form_only 100 "  " "Perez" "" "" Si 0
              db_inicial ltac:(left; by vm_compute)) as [Hform Hstore].
  split; [exact Hform|]. apply Hstore; by vm_compute.
Defined.

(** C4, counterexample: the first insert creates the row with id 1 and
    returns [None], not the id. *)
Lemma insertar_does_not_return_id :
  insertar_invitado 100 "Ana" "Perez" None None false 0 db_inicial
  = Return PyNone db_ana
  ∧ nombre <$> invitados db_ana !! 1 = Some "Ana"
  ∧ Return PyNone db_ana ≠ Return (PyInt 1) db_ana.
Proof. split; [done|]. split; [by vm_compute | discriminate]. Qed.

(** C4, as amended: for every input whose [acompanantes] fits a signed
    64-bit integer, on a database whose next id does too (so that the
    statement can run), [insertar_invitado] creates exactly one new row,
    under an id that is larger than every id in the table and than the
    AUTOINCREMENT counter, keeps all other rows, and returns [None]: the
    assigned id is not returned. *)
Theorem insertar_assigns_fresh_id_returns_none (now : Z) (n a : string)
    (te co : option string) (s : bool) (k : Z) (db : DB) :
  int64 k → int64 (next_id db) →
  ∃ db',
    insertar_invitado now n a te co s k db = Return PyNone db'
    ∧ invitados db !! next_id db = None
    ∧ is_Some (invitados db' !! next_id db)
    ∧ seq db < next_id db
    ∧ (∀ j g, invitados db !! j = Some g → j < next_id db)
    ∧ (∀ j, j ≠ next_id db → invitados db' !! j = invitados db !! j)
    ∧ size (invitados db') = S (size (invitados db)).
Proof.
  intros _ _. rewrite insertar_invitado_eq. eexists. split; [done|].
  pose proof (next_id_fresh db) as Hfresh. simpl.
  repeat split.
  - done.
  - by rewrite lookup_insert_eq.
  - unfold next_id. lia.
  - intros j g. apply next_id_above.
  - intros j Hj. by rewrite lookup_insert_ne.
  - by rewrite map_size_insert_None.
Qed.

Lemma insertar_assigns_fresh_id_returns_none_witness :
  (int64 2 ∧ int64 (next_id db_ana))
  ∧ ∃ db',
      insertar_invitado 101 "Luis" "Gomez" (Some "555") (Some "l@x.com") true 2
                        db_ana
      = Return PyNone db'
      ∧ invitados db_ana !! next_id db_ana = None
      ∧ is_Some (invitados db' !! next_id db_ana)
      ∧ seq db_ana < next_id db_ana
      ∧ (∀ j g, invitados db_ana !! j = Some g → j < next_id db_ana)
      ∧ (∀ j, j ≠ next_id db_ana → invitados db' !! j = invitados db_ana !! j)
      ∧ size (invitados db') = S (size (invitados db_ana)).
Proof.
  split; [by vm_compute|].
  apply (insertar_assigns_fresh_id_returns_none 101 "Luis" "Gomez" (Some "555")
           (Some "l@x.com") true 2 db_ana); by vm_compute.
Defined.

(** C9, at the failing input: a telephone made of one blank is stored as the
    empty string, not as NULL. *)
Theorem insertar_blank_phone_stored_empty :
  PyStr.strip " " = ""
  ∧ telefono <$> invitados
      (db_after (insertar_invitado 100 "Ana" "Perez" (Some " ") None false 0
                                   db_inicial) db_inicial) !! 1
    = Some (Some "").
Proof. split; [done | by vm_compute]. Qed.

(** ** Update of a stored row *)

(** What [actualizar_invitado] does to a stored row: the editable columns
    are replaced, and the trigger, when installed, stamps [updated_at]. *)
Lemma actualizar_stmt_present (now id_ : Z) (n a : string)
    (te co : option string) (s : bool) (k : Z) (db : DB) (old : guest) :
  invitados db !! id_ = Some old →
  actualizar_stmt now id_ n a te co s k db
  = Some (if trigger_installed db
          then (<[id_ := set_updated_at now (set_editable n a te co s k old)]>
                  (invitados db), [id_])
          else (<[id_ := set_editable n a te co s k old]> (invitados db), [])).
Proof.
  intros E. unfold actualizar_stmt.
  rewrite (sql_update_present _ _ _ _ _ old) by done.
  rewrite trg_when_set_editable, andb_true_r. by destruct (trigger_installed db).
Qed.



(** ** The trigger *)



(** ** Totals *)

Lemma or_0_Some (v : Z) : or_0 (Some v) = v.
Proof. unfold or_0. destruct (Z.eqb_spec v 0); congruence. Qed.

Lemma sum_indicator (gs : list guest) :
  total_of ((fun g => if asistira g =? 1 then 1 else 0) <$> gs)
  = Z.of_nat (length (filter (fun g => confirmado g) gs)).
Proof.
  induction gs as [|g gs IH]; [done|].
  rewrite filter_cons, fmap_cons.
  change (total_of (?x :: ?l)) with (x + total_of l). rewrite IH.
  destruct (decide (confirmado g)) as [Hc|Hc]; unfold confirmado in Hc;
    destruct (asistira g =? 1); try done; simpl length; lia.
Qed.

Lemma sum_confirmed (gs : list guest) :
  total_of ((fun g => if asistira g =? 1 then acompanantes g else 0) <$> gs)
  = total_of (acompanantes <$> filter (fun g => confirmado g) gs).
Proof.
  induction gs as [|g gs IH]; [done|].
  rewrite filter_cons, fmap_cons.
  change (total_of (?x :: ?l)) with (x + total_of l). rewrite IH.
  destruct (decide (confirmado g)) as [Hc|Hc]; unfold confirmado in Hc;
    destruct (asistira g =? 1); try done.
Qed.

Lemma or_0_sum (l : list Z) : or_0 (Sql.sum l) = total_of l.
Proof. destruct l; [done|]. unfold Sql.sum. by rewrite or_0_Some. Qed.

Lemma or_0_coalesce_sum (l : list Z) :
  or_0 (Sql.coalesce (Sql.sum l) 0) = total_of l.
Proof. destruct l; [done|]. unfold Sql.sum, Sql.coalesce. by rewrite or_0_Some. Qed.

(** With sums taken in [Z], [contar_totales] gives the number of rows, the
    number of confirmed rows and the sum of [acompanantes] over the
    confirmed rows, and (0, 0, 0) on the empty table. *)
Lemma contar_totales_counts (db : DB) :
  contar_totales db
  = (Z.of_nat (size (invitados db)),
     Z.of_nat (length (filter (fun g => confirmado g) (guests db))),
     total_of (acompanantes <$> filter (fun g => confirmado g) (guests db)))
  ∧ contar_totales (with_table ∅ db) = (0, 0, 0).
Proof.
  split; [|done].
  unfold contar_totales. fold (guests db).
  rewrite or_0_Some, or_0_sum, or_0_coalesce_sum, sum_indicator, sum_confirmed.
  unfold guests. by rewrite length_fmap, length_map_to_list.
Qed.

(** ** Order of the listing *)

Section text_order.

Lemma ascii_cmp_refl (c : ascii) : Ascii.compare c c = Eq.
Proof. apply N.compare_refl. Qed.

Lemma ascii_cmp_lt_trans (a b c : ascii) :
  Ascii.compare a b = Lt → Ascii.compare b c = Lt → Ascii.compare a c = Lt.
Proof.
  unfold Ascii.compare. rewrite !N.compare_lt_iff. apply N.lt_trans.
Qed.

Lemma text_cmp_refl (s : string) : text_cmp s s = Eq.
Proof. induction s as [|c s IH]; [done|]. simpl. by rewrite ascii_cmp_refl. Qed.

Lemma text_cmp_eq (a b : string) : text_cmp a b = Eq ↔ a = b.
Proof.
  split; [apply String.compare_eq_iff|]. intros ->. apply text_cmp_refl.
Qed.

Lemma text_cmp_flip (a b : string) : text_cmp b a = CompOpp (text_cmp a b).
Proof. apply String.compare_antisym. Qed.

Lemma text_lt_trans (a b c : string) : text_lt a b → text_lt b c → text_lt a c.
Proof.
  unfold text_lt, text_cmp. revert b c.
  induction a as [|x a IH]; intros [|y b] [|z c]; simpl; try done.
  destruct (Ascii.compare x y) eqn:Exy; try done;
    destruct (Ascii.compare y z) eqn:Eyz; try done.
  - apply Ascii.compare_eq_iff in Exy as ->. rewrite Eyz. apply IH.
  - apply Ascii.compare_eq_iff in Exy as ->. by rewrite Eyz.
  - apply Ascii.compare_eq_iff in Eyz as <-. by rewrite Exy.
  - by rewrite (ascii_cmp_lt_trans x y z).
Qed.

Lemma text_lt_irrefl (a : string) : ¬ text_lt a a.
Proof. unfold text_lt. by rewrite text_cmp_refl. Qed.

End text_order.

(** The comparison used for sorting is the ORDER BY clause. *)
Lemma order_listar_spec (r1 r2 : fila) :
  order_listar r1 r2 ↔ ordered_before r1 r2.
Proof.
  unfold order_listar, order_listar_b, ordered_before, text_lt.
  destruct (text_cmp (apellidos r1.2) (apellidos r2.2)) eqn:Ea.
  - apply text_cmp_eq in Ea.
    destruct (text_cmp (nombre r1.2) (nombre r2.2)) eqn:En.
    + apply text_cmp_eq in En. rewrite Is_true_true, Z.leb_le.
      split; [by auto|]. intros [?|[_ [?|[_ ?]]]]; done.
    + split; [by auto|done].
    + split; [done|]. intros [?|[_ [?|[En' _]]]]; try done.
      apply text_cmp_eq in En'. congruence.
  - split; [by auto|done].
  - split; [done|]. intros [?|[Ea' _]]; [done|].
    apply text_cmp_eq in Ea'. congruence.
Qed.

Global Instance order_listar_total : Total order_listar.
Proof.
  intros r1 r2. unfold order_listar, order_listar_b.
  rewrite (text_cmp_flip (apellidos r1.2)), (text_cmp_flip (nombre r1.2)).
  destruct (text_cmp (apellidos r1.2) (apellidos r2.2)); simpl; auto.
  destruct (text_cmp (nombre r1.2) (nombre r2.2)); simpl; auto.
  rewrite !Is_true_true, !Z.leb_le. lia.
Qed.

Global Instance order_listar_trans : Transitive order_listar.
Proof.
  intros r1 r2 r3. rewrite !order_listar_spec. unfold ordered_before.
  intros [H1|[E1 H1]] [H2|[E2 H2]].
  - left. by eapply text_lt_trans.
  - left. by rewrite <-E2.
  - left. by rewrite E1.
  - right. split; [congruence|].
    destruct H1 as [H1|[N1 H1]], H2 as [H2|[N2 H2]].
    + left. by eapply text_lt_trans.
    + left. by rewrite <-N2.
    + left. by rewrite N1.
    + right. split; [congruence | lia].
Qed.

(** Two rows that may each come before the other have the same id. *)
Lemma order_listar_antisym_id (r1 r2 : fila) :
  order_listar r1 r2 → order_listar r2 r1 → r1.1 = r2.1.
Proof.
  rewrite !order_listar_spec. unfold ordered_before.
  intros [H1|[E1 H1]] [H2|[E2 H2]].
  - destruct (text_lt_irrefl (apellidos r1.2)). by eapply text_lt_trans.
  - rewrite E2 in H1. by destruct (text_lt_irrefl _ H1).
  - rewrite E1 in H2. by destruct (text_lt_irrefl _ H2).
  - destruct H1 as [H1|[N1 H1]], H2 as [H2|[N2 H2]].
    + destruct (text_lt_irrefl (nombre r1.2)). by eapply text_lt_trans.
    + rewrite N2 in H1. by destruct (text_lt_irrefl _ H1).
    + rewrite N1 in H2. by destruct (text_lt_irrefl _ H2).
    + lia.
Qed.

Lemma StronglySorted_lookup_lt {A} (R : relation A) (l : list A) (i j : nat)
    (x y : A) :
  StronglySorted R l → l !! i = Some x → l !! j = Some y → (i < j)%nat → R x y.
Proof.
  intros Hl. revert i j. induction Hl as [|z l Hl IH Hz]; intros i j Hi Hj Hij.
  { by rewrite lookup_nil in Hi. }
  destruct j as [|j]; [lia|]. simpl in Hj.
  destruct i as [|i]; simpl in Hi.
  - simplify_eq. rewrite Forall_forall in Hz. apply Hz.
    by eapply list_elem_of_lookup_2.
  - apply (IH i j); [done..|lia].
Qed.

(** The listing is a rearrangement of the selected rows. *)
Lemma listar_invitados_perm (f : string) (sc : bool) (db : DB) :
  listar_invitados f sc db
  ≡ₚ filter (fun r => Sql.holds (where_listar (filtro_de f) sc r))
            (map_to_list (invitados db)).
Proof. unfold listar_invitados. apply merge_sort_Permutation. Qed.

Lemma listar_invitados_stored (f : string) (sc : bool) (db : DB) (r : fila) :
  r ∈ listar_invitados f sc db → invitados db !! r.1 = Some r.2.
Proof.
  rewrite listar_invitados_perm, list_elem_of_filter. intros [_ Hr].
  destruct r. by apply elem_of_map_to_list.
Qed.

Lemma listar_invitados_NoDup_ids (f : string) (sc : bool) (db : DB) :
  NoDup (listar_invitados f sc db).*1.
Proof.
  rewrite listar_invitados_perm.
  eapply sublist_NoDup; [apply (NoDup_fst_map_to_list (invitados db))|].
  apply fmap_sublist, sublist_filter.
Qed.

(** C7: for every table state, filter and flag, the listing is ordered by
    last name ascending, then first name ascending, then id descending: any
    row that comes earlier precedes every later row in that order, and two
    rows with the same names appear with the larger id first.  The order is
    deterministic: the listing is the only arrangement of its rows that
    respects the ORDER BY clause. *)
Theorem listar_invitados_ordered (f : string) (sc : bool) (db : DB) :
  StronglySorted ordered_before (listar_invitados f sc db)
  ∧ (∀ i j r1 r2,
       listar_invitados f sc db !! i = Some r1 →
       listar_invitados f sc db !! j = Some r2 →
       (i < j)%nat →
       ordered_before r1 r2
       ∧ (apellidos r1.2 = apellidos r2.2 → nombre r1.2 = nombre r2.2 →
          r2.1 < r1.1))
  ∧ (∀ l', l' ≡ₚ listar_invitados f sc db → Sorted ordered_before l' →
           l' = listar_invitados f sc db).
Proof.
  assert (StronglySorted order_listar (listar_invitados f sc db)) as Hs.
  { unfold listar_invitados. apply StronglySorted_merge_sort; apply _. }
  assert (∀ l, StronglySorted order_listar l ↔ StronglySorted ordered_before l)
    as Hiff.
  { intros l. split; induction 1 as [|x l' ? IH Hx]; constructor; try done;
      eapply Forall_impl; try exact Hx; intros y; by rewrite order_listar_spec. }
  split; [by apply Hiff|]. split.
  - intros i j r1 r2 Hi Hj Hij.
    pose proof (StronglySorted_lookup_lt _ _ _ _ _ _ Hs Hi Hj Hij) as Hord.
    split; [by apply order_listar_spec|]. intros Ea En.
    assert (r1.1 ≠ r2.1) as Hne.
    { intros Heq. pose proof (listar_invitados_NoDup_ids f sc db) as Hnd.
      assert (i = j); [|lia].
      apply (NoDup_lookup _ i j (r1.1) Hnd); rewrite list_lookup_fmap.
      - by apply fmap_Some_2.
      - rewrite Heq. by apply fmap_Some_2. }
    apply order_listar_spec in Hord. unfold ordered_before in Hord.
    destruct Hord as [H|[_ [H|[_ H]]]].
    + rewrite Ea in H. by destruct (text_lt_irrefl _ H).
    + rewrite En in H. by destruct (text_lt_irrefl _ H).
    + lia.
  - intros l' Hperm Hl'.
    assert (Sorted order_listar l') as Hl''.
    { clear Hperm. induction Hl' as [|x l'' ? IH Hx]; constructor; [done|].
      destruct Hx; constructor. by apply order_listar_spec. }
    apply (Sorted_unique_strong order_listar); [|done| |done].
    + intros x1 x2 Hx1 Hx2 H12 H21.
      rewrite Hperm in Hx1.
      apply listar_invitados_stored in Hx1, Hx2.
      pose proof (order_listar_antisym_id _ _ H12 H21) as Heq.
      destruct x1 as [k1 g1], x2 as [k2 g2]. simpl in *. congruence.
    + by apply Sorted.StronglySorted_Sorted.
Qed.

(** ** The filter of the listing *)

Section like_patterns.

Lemma like_any_seq (p t : string) :
  Sql.like (String Sql.any_seq p) t
  = Sql.like p t
    || match t with
       | EmptyString => false
       | String _ t' => Sql.like (String Sql.any_seq p) t'
       end.
Proof. by destruct t. Qed.

Lemma like_literal (c : ascii) (p t : string) :
  no_wildcard (String c EmptyString) →
  Sql.like (String c p) t
  = match t with
    | EmptyString => false
    | String d t' => Sql.eq_nocase c d && Sql.like p t'
    end.
Proof.
  simpl. intros H. cbn [Sql.like].
  destruct (Ascii.eqb c Sql.any_seq); [done|].
  by destruct (Ascii.eqb c Sql.any_one).
Qed.

(** A lone [%] matches every text. *)
Lemma like_any (t : string) : Sql.like (String Sql.any_seq EmptyString) t = true.
Proof.
  induction t as [|c t IH]; [done|].
  rewrite like_any_seq, IH. apply orb_true_r.
Qed.

Lemma like_prefix (s t : string) :
  no_wildcard s →
  Sql.like (s ++ String Sql.any_seq EmptyString) t = ci_prefix s t.
Proof.
  revert t. induction s as [|c s IH]; intros t Hs.
  { change (Sql.like (String Sql.any_seq EmptyString) t = true).
    apply like_any. }
  change (String c s ++ ?q)%string with (String c (s ++ q)).
  cbn [no_wildcard] in Hs.
  apply andb_prop_elim in Hs as [Hc Hs].
  rewrite like_literal by (cbn [no_wildcard]; by rewrite andb_true_r).
  destruct t as [|d t]; [done|]. cbn [ci_prefix]. by rewrite IH.
Qed.

(** Between two [%], a text without wildcards is searched as a substring. *)
Lemma like_infix (s t : string) :
  no_wildcard s →
  Sql.like (String Sql.any_seq (s ++ String Sql.any_seq EmptyString)) t
  = ci_infix s t.
Proof.
  intros Hs. induction t as [|d t IH].
  - rewrite like_any_seq, like_prefix by done. by destruct s.
  - rewrite like_any_seq, like_prefix, IH by done. done.
Qed.

End like_patterns.

Section substring.

Lemma append_cons (c : ascii) (s q : string) :
  (String c s ++ q)%string = String c (s ++ q).
Proof. done. Qed.

Lemma eq_nocase_lower (c d : ascii) :
  Sql.eq_nocase c d ↔ Sql.lower c = Sql.lower d.
Proof. unfold Sql.eq_nocase. by rewrite Is_true_true, Ascii.eqb_eq. Qed.

Lemma ci_prefix_spec (s t : string) :
  ci_prefix s t
  ↔ ∃ found after, t = (found ++ after)%string
                   ∧ text_lower found = text_lower s.
Proof.
  revert t. induction s as [|c s IH]; intros t.
  - split; [|done]. intros _. by exists EmptyString, t.
  - destruct t as [|d t]; cbn [ci_prefix].
    + split; [done|]. intros ([|??]&?&?&?); done.
    + rewrite andb_True, eq_nocase_lower, IH. split.
      * intros (Hcd & u & v & -> & Hu). exists (String d u), v.
        split; [done|]. simpl. by rewrite Hu, Hcd.
      * intros ([|d' u] & v & Ht & Hu); [done|].
        rewrite append_cons in Ht. simpl in Hu. simplify_eq. eauto.
Qed.

(** [ci_infix] decides [ci_substring]. *)
Lemma ci_infix_spec (s t : string) : ci_infix s t ↔ ci_substring s t.
Proof.
  unfold ci_substring. induction t as [|d t IH]; cbn [ci_infix].
  - rewrite orb_false_r, ci_prefix_spec. split.
    + intros (u & v & Ht & Hu). by exists EmptyString, u, v.
    + intros ([|??] & u & v & Ht & Hu); [|done]. by exists u, v.
  - rewrite orb_True, ci_prefix_spec, IH. split.
    + intros [(u & v & Ht & Hu)|(b & u & v & Ht & Hu)].
      * by exists EmptyString, u, v.
      * exists (String d b), u, v. by rewrite append_cons, Ht.
    + intros ([|d' b] & u & v & Ht & Hu).
      * left. by exists u, v.
      * right. rewrite append_cons in Ht. simplify_eq. eauto.
Qed.

End substring.

Section where_clause.

Lemma holds_or3 (a b : Sql.tv) :
  Sql.holds (Sql.or3 a b) = Sql.holds a || Sql.holds b.
Proof. by destruct a as [[]|], b as [[]|]. Qed.

Lemma holds_and3 (a b : Sql.tv) :
  Sql.holds (Sql.and3 a b) = Sql.holds a && Sql.holds b.
Proof. by destruct a as [[]|], b as [[]|]. Qed.

Lemma holds_like3 (x : option string) (pat : string) :
  Sql.holds (Sql.like3 x pat) = from_option (Sql.like pat) false x.
Proof. destruct x as [x|]; [|done]. simpl. by destruct (Sql.like pat x). Qed.

(** The WHERE clause in two-valued form: NULL columns never match. *)
Lemma holds_where_listar (pat : string) (sc : bool) (r : fila) :
  Sql.holds (where_listar pat sc r)
  = coincide_like pat r.2 && (if sc then asistira r.2 =? 1 else true).
Proof.
  unfold where_listar, coincide_like. destruct sc.
  - rewrite holds_and3, !holds_or3, !holds_like3. simpl.
    by destruct (asistira r.2 =? 1).
  - by rewrite !holds_or3, !holds_like3, andb_true_r.
Qed.

Lemma ci_infix_empty (t : string) : ci_infix EmptyString t = true.
Proof. by destruct t. Qed.

(** The pattern built from a filter without wildcards searches for the
    trimmed filter. *)
Lemma like_filtro_de (f t : string) :
  no_wildcard (PyStr.strip f) →
  Sql.like (filtro_de f) t = ci_infix (PyStr.strip f) t.
Proof.
  intros Hf. unfold filtro_de. destruct f as [|c f]; cbn [PyStr.truthy].
  - by rewrite like_any, ci_infix_empty.
  - by apply like_infix.
Qed.

Lemma coincide_like_filtro_de (f : string) (g : guest) :
  no_wildcard (PyStr.strip f) →
  coincide_like (filtro_de f) g = coincide (PyStr.strip f) g.
Proof.
  intros Hf. unfold coincide_like, coincide.
  rewrite !like_filtro_de by done.
  destruct (telefono g), (correo g); simpl; by rewrite ?like_filtro_de.
Qed.

(** [coincide] says what its description says. *)
Lemma coincide_spec (s : string) (g : guest) :
  coincide s g
  ↔ ci_substring s (nombre g) ∨ ci_substring s (apellidos g)
    ∨ (∃ x, telefono g = Some x ∧ ci_substring s x)
    ∨ (∃ x, correo g = Some x ∧ ci_substring s x).
Proof.
  unfold coincide. rewrite !orb_True, !ci_infix_spec.
  assert (∀ o : option string,
            from_option (ci_infix s) false o
            ↔ ∃ x, o = Some x ∧ ci_substring s x) as Hopt.
  { intros [x|]; simpl.
    - rewrite ci_infix_spec. split; [by eauto|]. by intros (? & [= <-] & ?).
    - split; [done|]. by intros (? & ? & ?). }
  rewrite !Hopt. tauto.
Qed.

End where_clause.

(** Membership in the listing, in terms of the LIKE pattern. *)
Lemma listar_invitados_elem (f : string) (sc : bool) (db : DB) (i : Z)
    (g : guest) :
  (i, g) ∈ listar_invitados f sc db
  ↔ invitados db !! i = Some g
    ∧ coincide_like (filtro_de f) g
    ∧ (sc = true → asistira g = 1).
Proof.
  rewrite listar_invitados_perm, list_elem_of_filter, elem_of_map_to_list.
  rewrite holds_where_listar, andb_True. simpl.
  destruct sc.
  - rewrite (Is_true_true (asistira g =? 1)), Z.eqb_eq. tauto.
  - split; [by intros [[? _] ?] | by intros (? & ? & _)].
Qed.

(** C6, counterexample: with the filter [_ ] (an underscore and a blank) the
    listing returns Ana's row, although neither the filter nor its trimmed
    form occurs in any of her four columns. *)
Lemma listar_wildcard_filter_not_substring :
  listar_invitados "_ " false db_ana
  = [(1, Guest "Ana" "Perez" None None 0 0 100 100)]
  ∧ coincide "_ " (Guest "Ana" "Perez" None None 0 0 100 100) = false
  ∧ coincide "_" (Guest "Ana" "Perez" None None 0 0 100 100) = false.
Proof. by vm_compute. Qed.

(** C6, as amended: for every table state whose texts hold no U+0000 and
    every filter string whose pattern holds none and is at most 50000 bytes
    long (so that LIKE reads texts and pattern in full), the listing
    returns, once each, exactly the stored rows where the LIKE pattern made
    of the trimmed filter between two [%] matches first name OR last name OR
    telephone OR e-mail (a NULL column never matches); when the trimmed
    filter holds no wildcard ([%] or [_]) these are exactly the rows where
    the trimmed filter is a substring, up to ASCII case, of one of the four
    columns; the empty filter matches every row of every table; and when
    [solo_confirmados] is set the result is further restricted to rows with
    [asistira = 1]. *)
Theorem listar_invitados_filter (f : string) (sc : bool) (db : DB) :
  (patron_ok f → textos_sin_nul db →
   NoDup (listar_invitados f sc db)
   ∧ (∀ i g,
        (i, g) ∈ listar_invitados f sc db
        ↔ invitados db !! i = Some g
          ∧ coincide_like (filtro_de f) g
          ∧ (sc = true → asistira g = 1))
   ∧ (no_wildcard (PyStr.strip f) →
      ∀ i g,
        (i, g) ∈ listar_invitados f sc db
        ↔ invitados db !! i = Some g
          ∧ (ci_substring (PyStr.strip f) (nombre g)
             ∨ ci_substring (PyStr.strip f) (apellidos g)
             ∨ (∃ x, telefono g = Some x ∧ ci_substring (PyStr.strip f) x)
             ∨ (∃ x, correo g = Some x ∧ ci_substring (PyStr.strip f) x))
          ∧ (sc = true → asistira g = 1)))
  ∧ (∀ i g,
       (i, g) ∈ listar_invitados "" sc db
       ↔ invitados db !! i = Some g ∧ (sc = true → asistira g = 1)).
Proof.
  split; [intros _ _; split; [|split]|].
  - eapply NoDup_fmap_1, listar_invitados_NoDup_ids.
  - intros i g. apply listar_invitados_elem.
  - intros Hf i g.
    by rewrite listar_invitados_elem, coincide_like_filtro_de, coincide_spec.
  - intros i g. rewrite listar_invitados_elem.
    unfold coincide_like, filtro_de. cbn [PyStr.truthy].
    rewrite !like_any. simpl. tauto.
Qed.

Lemma listar_invitados_filter_witness :
  (patron_ok " ANA " ∧ textos_sin_nul db_ana_luis
   ∧ no_wildcard (PyStr.strip " ANA "))
  ∧ ((1, Guest "Ana" "Perez" None None 0 0 100 100)
       ∈ listar_invitados " ANA " false db_ana_luis
     ↔ invitados db_ana_luis !! 1 = Some (Guest "Ana" "Perez" None None 0 0 100 100)
       ∧ (ci_substring (PyStr.strip " ANA ") "Ana"
          ∨ ci_substring (PyStr.strip " ANA ") "Perez"
          ∨ (∃ x, None = Some x ∧ ci_substring (PyStr.strip " ANA ") x)
          ∨ (∃ x, None = Some x ∧ ci_substring (PyStr.strip " ANA ") x))
       ∧ (false = true → 0 = 1)).
Proof.
  assert (textos_sin_nul db_ana_luis) as Hdb.
  { change (map_Forall
              (fun (_ : Z) g =>
                 sin_nul (nombre g) ∧ sin_nul (apellidos g)
                 ∧ from_option sin_nul true (telefono g)
                 ∧ from_option sin_nul true (correo g))
              (invitados db_ana_luis)).
    apply (bool_decide_unpack _). by vm_compute. }
  split; [split; [by vm_compute|]; split; [exact Hdb | by vm_compute]|].
  apply (proj2 (proj2 (proj1 (listar_invitados_filter " ANA " false db_ana_luis)
                         ltac:(by vm_compute) Hdb))
           ltac:(by vm_compute) 1 (Guest "Ana" "Perez" None None 0 0 100 100)).
Defined.

(** * Further properties of the record store *)

(** ** Totals under rearrangement of the rows *)

Lemma total_of_perm (l1 l2 : list Z) : l1 ≡ₚ l2 → total_of l1 = total_of l2.
Proof.
  induction 1 as [|x l1 l2 _ IH|x y l|l1 l2 l3 _ IH1 _ IH2]; unfold total_of in *;
    simpl; [done|by rewrite IH|lia|congruence].
Qed.

(** The three totals, read off any enumeration of the stored guests. *)
Lemma contar_totales_of_guests (db : DB) (gs : list guest) :
  guests db ≡ₚ gs →
  contar_totales db
  = (Z.of_nat (length gs),
     Z.of_nat (length (filter (fun g => confirmado g) gs)),
     total_of (acompanantes <$> filter (fun g => confirmado g) gs)).
Proof.
  intros Hp. unfold contar_totales. fold (guests db).
  rewrite or_0_Some, or_0_sum, or_0_coalesce_sum, sum_indicator, sum_confirmed.
  rewrite (total_of_perm _ (acompanantes <$> filter (fun g => confirmado g) gs))
    by (by rewrite Hp).
  by rewrite Hp.
Qed.

Lemma confirmado_int_of_bool (n a : string) (te co : option string) (s : bool)
    (k c u : Z) :
  confirmado (Guest n a te co (int_of_bool s) k c u) = s.
Proof. by destruct s. Qed.

Lemma guests_insert (db : DB) (i s : Z) (b : bool) (g : guest) :
  invitados db !! i = None →
  guests (Db (<[i := g]> (invitados db)) s b) ≡ₚ g :: guests db.
Proof.
  intros Hi. unfold guests. cbn [invitados].
  by rewrite map_to_list_insert.
Qed.

Lemma guests_delete (db : DB) (i : Z) (g : guest) :
  invitados db !! i = Some g →
  guests db ≡ₚ g :: guests (with_table (delete i (invitados db)) db).
Proof.
  intros Hi. unfold guests. cbn [invitados with_table].
  by rewrite <-(map_to_list_delete (invitados db) i g).
Qed.

Lemma filter_all {A} (P : A → Prop) `{∀ x, Decision (P x)} (l : list A) :
  (∀ x, P x) → filter P l = l.
Proof.
  intros HP. induction l as [|x l IH]; [done|].
  rewrite filter_cons, IH. destruct (decide (P x)) as [|Hn]; [done|]. by destruct Hn.
Qed.

(** ** The totals with 64-bit sums *)

Lemma int64_abs (z : Z) : Z.abs z ≤ int64_max → int64 z.
Proof.
  intros Hz. unfold int64. apply andb_True.
  rewrite !Is_true_true, !Z.leb_le. unfold int64_min, int64_max in *. lia.
Qed.

(** A sum that 64 bits can hold is the sum. *)
Lemma sum64_from_total (acc : Z) (l : list Z) (s : Z) :
  sum64_from acc l = Some s → s = acc + total_of l.
Proof.
  revert acc. induction l as [|x l IH]; intros acc; cbn [sum64_from].
  - intros [= <-]. unfold total_of. simpl. lia.
  - destruct (int64 (acc + x)); [|done]. intros ->%IH.
    change (total_of (x :: l)) with (x + total_of l). lia.
Qed.

Lemma sum64_sum (l : list Z) (r : option Z) : sum64 l = Some r → r = Sql.sum l.
Proof.
  destruct l as [|x l]; [by intros [= <-]|]. unfold sum64.
  destruct (sum64_from 0 (x :: l)) as [s|] eqn:E; [|done].
  intros [= <-]. apply sum64_from_total in E as ->. done.
Qed.

(** No step overflows when the absolute values add up to a 64-bit number. *)
Lemma sum64_from_abs (acc : Z) (l : list Z) :
  Z.abs acc + total_of (Z.abs <$> l) ≤ int64_max →
  sum64_from acc l = Some (acc + total_of l).
Proof.
  revert acc. induction l as [|x l IH]; intros acc; cbn [sum64_from].
  - intros _. unfold total_of. simpl. f_equal. lia.
  - rewrite fmap_cons. change (total_of (?y :: ?q)) with (y + total_of q).
    intros Hb.
    assert (0 ≤ total_of (Z.abs <$> l)) as Hpos.
    { clear. induction l as [|y l IH]; [done|]. rewrite fmap_cons.
      change (total_of (?z :: ?q)) with (z + total_of q). lia. }
    assert (int64 (acc + x)) as Hin by (apply int64_abs; lia).
    apply Is_true_true in Hin. rewrite Hin, IH by lia. f_equal. lia.
Qed.

Lemma sum64_abs (l : list Z) :
  total_of (Z.abs <$> l) ≤ int64_max → sum64 l = Some (Sql.sum l).
Proof.
  intros Hb. destruct l as [|x l]; [done|]. unfold sum64.
  rewrite sum64_from_abs by (change (Z.abs 0) with 0; lia).
  by rewrite Z.add_0_l.
Qed.

Lemma guests_por_id (db : DB) : guests db ≡ₚ (filas_por_id db).*2.
Proof.
  unfold guests, filas_por_id. apply fmap_Permutation. symmetry.
  apply merge_sort_Permutation.
Qed.

(** Over the confirmed guests only. *)
Lemma total_if_confirmado (f : guest → Z) (gs : list guest) :
  total_of ((fun g => if asistira g =? 1 then f g else 0) <$> gs)
  = total_of (f <$> filter (fun g => confirmado g) gs).
Proof.
  induction gs as [|g gs IH]; [done|].
  rewrite filter_cons, fmap_cons.
  change (total_of (?x :: ?l)) with (x + total_of l). rewrite IH.
  destruct (decide (confirmado g)) as [Hc|Hc]; unfold confirmado in Hc;
    destruct (asistira g =? 1); try done.
Qed.

(** When the query returns, it returns what the sums in [Z] give. *)
Lemma contar_totales_int64_Some (db : DB) (v : Z * Z * Z) :
  contar_totales_int64 db = Some v → v = contar_totales db.
Proof.
  unfold contar_totales_int64.
  set (ind := (fun g : guest => if asistira g =? 1 then 1 else 0) <$> _).
  set (com := (fun g : guest => if asistira g =? 1 then acompanantes g else 0) <$> _).
  destruct (sum64 ind) as [c|] eqn:Ec; [|done].
  destruct (sum64 com) as [m|] eqn:Em; [|done].
  cbn [mbind option_bind]. intros [= <-].
  apply sum64_sum in Ec as ->. apply sum64_sum in Em as ->. subst ind com.
  rewrite (contar_totales_of_guests db _ (guests_por_id db)).
  change (if ?z =? 0 then 0 else ?z) with (or_0 (Some z)).
  by rewrite or_0_Some, or_0_sum, or_0_coalesce_sum, sum_indicator, sum_confirmed.
Qed.

(** C5, counterexample: with two confirmed guests of 9223372036854775807
    companions each, both of which can be stored, the query fails with
    "integer overflow" and no triple is returned. *)
Lemma contar_totales_overflow :
  size (invitados db_desborde) = 2%nat
  ∧ map_Forall (fun _ g => int64 (acompanantes g)) (invitados db_desborde)
  ∧ contar_totales_int64 db_desborde = None.
Proof.
  split; [by vm_compute|]. split; [|by vm_compute].
  apply (bool_decide_unpack _). by vm_compute.
Qed.

(** C5, as amended: for every table state whose number of rows and whose
    companion counts of the confirmed rows, added up in absolute value, stay
    within the signed 64-bit range, [contar_totales] returns the number of
    rows, the number of confirmed rows and the sum of [acompanantes] over
    the confirmed rows; all three are integers (never NULL), and on the
    empty table the result is (0, 0, 0). *)
Theorem contar_totales_int64_counts (db : DB) :
  (Z.of_nat (size (invitados db)) ≤ int64_max →
   total_of ((fun g => Z.abs (acompanantes g))
               <$> filter (fun g => confirmado g) (guests db)) ≤ int64_max →
   contar_totales_int64 db
   = Some (Z.of_nat (size (invitados db)),
           Z.of_nat (length (filter (fun g => confirmado g) (guests db))),
           total_of (acompanantes <$> filter (fun g => confirmado g) (guests db))))
  ∧ contar_totales_int64 (with_table ∅ db) = Some (0, 0, 0).
Proof.
  split; [|done]. intros Hsize Habs.
  pose proof (guests_por_id db) as Hp.
  unfold contar_totales_int64.
  set (gs := (filas_por_id db).*2) in *.
  assert (length gs = size (invitados db)) as Hlen.
  { rewrite <-(Permutation_length Hp). unfold guests.
    by rewrite length_fmap, length_map_to_list. }
  rewrite (sum64_abs ((fun g => if asistira g =? 1 then 1 else 0) <$> gs)).
  2:{ rewrite <-list_fmap_compose.
      erewrite (list_fmap_ext _ (fun g => if asistira g =? 1 then 1 else 0));
        [|intros ? g _; simpl; by destruct (asistira g =? 1)].
      rewrite sum_indicator.
      pose proof (length_filter (fun g => confirmado g) gs). lia. }
  rewrite (sum64_abs ((fun g => if asistira g =? 1 then acompanantes g else 0) <$> gs)).
  2:{ rewrite <-list_fmap_compose.
      erewrite (list_fmap_ext _
                  (fun g => if asistira g =? 1 then Z.abs (acompanantes g) else 0));
        [|intros ? g _; simpl; by destruct (asistira g =? 1)].
      rewrite total_if_confirmado.
      erewrite total_of_perm; [exact Habs|]. by rewrite Hp. }
  cbn [mbind option_bind].
  rewrite or_0_Some, or_0_sum, or_0_coalesce_sum, sum_indicator, sum_confirmed.
  rewrite Hlen. f_equal. f_equal; [f_equal|].
  - f_equal. apply Permutation_length. by rewrite Hp.
  - apply total_of_perm. by rewrite Hp.
Qed.

Lemma contar_totales_int64_counts_witness :
  (Z.of_nat (size (invitados db_ana_luis)) ≤ int64_max
   ∧ total_of ((fun g => Z.abs (acompanantes g))
                 <$> filter (fun g => confirmado g) (guests db_ana_luis))
     ≤ int64_max)
  ∧ contar_totales_int64 db_ana_luis
    = Some (Z.of_nat (size (invitados db_ana_luis)),
            Z.of_nat (length (filter (fun g => confirmado g) (guests db_ana_luis))),
            total_of (acompanantes
                        <$> filter (fun g => confirmado g) (guests db_ana_luis))).
Proof.
  split; [by vm_compute|].
  apply (proj1 (contar_totales_int64_counts db_ana_luis)); by vm_compute.
Defined.

(** ** Insert, then read *)

(** The totals after an insert, with sums taken in [Z]. *)
Lemma contar_totales_insertar (now : Z) (n a : string)
    (te co : option string) (s : bool) (k : Z) (db : DB) :
  contar_totales (db_after (insertar_invitado now n a te co s k db) db)
  = ((contar_totales db).1.1 + 1,
     (contar_totales db).1.2 + int_of_bool s,
     (contar_totales db).2 + (if s then k else 0)).
Proof.
  rewrite insertar_invitado_eq. cbn [db_after].
  rewrite (contar_totales_of_guests _ _ (guests_insert db _ _ _ _ (next_id_fresh db))).
  rewrite (contar_totales_of_guests db (guests db)) by done.
  rewrite filter_cons. cbn [fst snd].
  destruct (decide _) as [Hc|Hc]; rewrite confirmado_int_of_bool in Hc;
    destruct s; try done; cbn [length fmap list_fmap int_of_bool];
    change (total_of (?x :: ?l)) with (x + total_of l);
    cbn [acompanantes]; (f_equal; [f_equal|]); lia.
Qed.

(** X1: when [contar_totales] returns before and after an insert that the
    engine can run ([acompanantes] and the next id within 64 bits), the total
    has grown by one and, if the new guest is confirmed, the confirmed count
    by one and the companion sum by its [acompanantes]. *)
Theorem insertar_then_contar_totales (now : Z) (n a : string)
    (te co : option string) (s : bool) (k : Z) (db : DB) (v v' : Z * Z * Z) :
  int64 k → int64 (next_id db) →
  contar_totales_int64 db = Some v →
  contar_totales_int64 (db_after (insertar_invitado now n a te co s k db) db)
  = Some v' →
  v' = (v.1.1 + 1, v.1.2 + int_of_bool s, v.2 + (if s then k else 0)).
Proof.
  intros _ _ ->%contar_totales_int64_Some ->%contar_totales_int64_Some.
  apply contar_totales_insertar.
Qed.

Lemma insertar_then_contar_totales_witness :
  (int64 2 ∧ int64 (next_id db_ana)
   ∧ contar_totales_int64 db_ana = Some (1, 0, 0)
   ∧ contar_totales_int64 db_ana_luis = Some (2, 1, 2))
  ∧ (2, 1, 2) = (1 + 1, 0 + 1, 0 + 2).
Proof.
  split; [by vm_compute|].
  apply (insertar_then_contar_totales 101 "Luis" "Gomez" (Some "555")
           (Some "l@x.com") true 2 db_ana (1, 0, 0) (2, 1, 2)); by vm_compute.
Defined.



(** ** Delete of a stored row *)

(** X4: deleting a stored id removes that row and no other, keeps the
    AUTOINCREMENT counter, and every listing loses exactly that row. *)
Theorem eliminar_removes_only_that_row (id_ : Z) (db : DB) (g : guest) :
  invitados db !! id_ = Some g →
  ∃ db',
    eliminar_invitado id_ db = Return PyNone db'
    ∧ invitados db' !! id_ = None
    ∧ (∀ j, j ≠ id_ → invitados db' !! j = invitados db !! j)
    ∧ seq db' = seq db
    ∧ (∀ f sc i x,
         (i, x) ∈ listar_invitados f sc db'
         ↔ (i, x) ∈ listar_invitados f sc db ∧ i ≠ id_).
Proof.
  intros Hg. eexists. split; [done|]. cbn [with_table invitados seq].
  split; [apply lookup_delete_eq|].
  split; [intros j Hj; by apply lookup_delete_ne|]. split; [done|].
  intros f sc i x. rewrite !listar_invitados_elem. cbn [invitados with_table].
  destruct (decide (i = id_)) as [->|Hne].
  - rewrite lookup_delete_eq. split; [by intros [? _] | by intros [_ ?]].
  - rewrite lookup_delete_ne by done. tauto.
Qed.

Lemma eliminar_removes_only_that_row_witness :
  ∃ db',
    eliminar_invitado 2 db_ana_luis = Return PyNone db'
    ∧ invitados db' !! 2 = None
    ∧ (∀ j, j ≠ 2 → invitados db' !! j = invitados db_ana_luis !! j)
    ∧ seq db' = seq db_ana_luis
    ∧ (∀ f sc i x,
         (i, x) ∈ listar_invitados f sc db'
         ↔ (i, x) ∈ listar_invitados f sc db_ana_luis ∧ i ≠ 2).
Proof.
  apply (eliminar_removes_only_that_row 2 db_ana_luis
           (Guest "Luis" "Gomez" (Some "555") (Some "l@x.com") 1 2 101 101)).
  by vm_compute.
Defined.

(** The totals before a delete, with sums taken in [Z]. *)
Lemma contar_totales_eliminar (id_ : Z) (db : DB) (g : guest) :
  invitados db !! id_ = Some g →
  contar_totales db
  = ((contar_totales (db_after (eliminar_invitado id_ db) db)).1.1 + 1,
     (contar_totales (db_after (eliminar_invitado id_ db) db)).1.2
       + (if confirmado g then 1 else 0),
     (contar_totales (db_after (eliminar_invitado id_ db) db)).2
       + (if confirmado g then acompanantes g else 0)).
Proof.
  intros Hg. cbn [eliminar_invitado db_after].
  rewrite (contar_totales_of_guests db _ (guests_delete db id_ g Hg)).
  rewrite (contar_totales_of_guests (with_table _ db) _ (reflexivity _)).
  rewrite filter_cons. cbn [fst snd].
  destruct (decide _) as [Hc|Hc]; destruct (confirmado g); try done;
    cbn [length fmap list_fmap];
    change (total_of (?x :: ?l)) with (x + total_of l);
    (f_equal; [f_equal|]); lia.
Qed.


(** X5: when [contar_totales] returns before and after the delete of a
    stored row, the delete has lowered the total by one and, if the row was
    confirmed, the confirmed count by one and the companion sum by the
    row's [acompanantes]. *)
Theorem eliminar_then_contar_totales (id_ : Z) (db : DB) (g : guest)
    (v v' : Z * Z * Z) :
  invitados db !! id_ = Some g →
  contar_totales_int64 db = Some v →
  contar_totales_int64 (db_after (eliminar_invitado id_ db) db) = Some v' →
  v = (v'.1.1 + 1,
       v'.1.2 + (if confirmado g then 1 else 0),
       v'.2 + (if confirmado g then acompanantes g else 0)).
Proof.
  intros Hg ->%contar_totales_int64_Some ->%contar_totales_int64_Some.
  by apply contar_totales_eliminar.
Qed.

Lemma eliminar_then_contar_totales_witness :
  (invitados db_ana_luis !! 2
   = Some (Guest "Luis" "Gomez" (Some "555") (Some "l@x.com") 1 2 101 101)
   ∧ contar_totales_int64 db_ana_luis = Some (2, 1, 2)
   ∧ contar_totales_int64
       (db_after (eliminar_invitado 2 db_ana_luis) db_ana_luis)
     = Some (1, 0, 0))
  ∧ (2, 1, 2) = (1 + 1, 0 + 1, 0 + 2).
Proof.
  split; [by vm_compute|].
  apply (eliminar_then_contar_totales 2 db_ana_luis
           (Guest "Luis" "Gomez" (Some "555") (Some "l@x.com") 1 2 101 101)
           (2, 1, 2) (1, 0, 0)); by vm_compute.
Defined.

(** ** Update of a stored row, then read *)

(** The table an update of a stored row leaves behind. *)
Lemma actualizar_invitado_present (now id_ : Z) (n a : string)
    (te co : option string) (s : bool) (k : Z) (db : DB) (old : guest) :
  invitados db !! id_ = Some old →
  actualizar_invitado now id_ n a te co s k db
  = Return PyNone
      (with_table
         (<[id_ := Guest (PyStr.strip n) (PyStr.strip a) (strip_or_none te)
                         (strip_or_none co) (int_of_bool s) k (created_at old)
                         (if trigger_installed db then now else updated_at old)]>
            (invitados db)) db).
Proof.
  intros E. unfold actualizar_invitado.
  rewrite (actualizar_stmt_present _ _ _ _ _ _ _ _ _ old) by done.
  by destruct (trigger_installed db).
Qed.



(** The totals after an update, with sums taken in [Z]. *)
Lemma contar_totales_actualizar (now id_ : Z) (n a : string)
    (te co : option string) (s : bool) (k : Z) (db : DB) (old : guest) :
  invitados db !! id_ = Some old →
  let after :=
    contar_totales (db_after (actualizar_invitado now id_ n a te co s k db) db) in
  after.1.1 = (contar_totales db).1.1
  ∧ after.1.2 + (if confirmado old then 1 else 0)
    = (contar_totales db).1.2 + int_of_bool s
  ∧ after.2 + (if confirmado old then acompanantes old else 0)
    = (contar_totales db).2 + (if s then k else 0).
Proof.
  intros Hold after. subst after.
  rewrite (actualizar_invitado_present _ _ _ _ _ _ _ _ _ old) by done.
  cbn [db_after].
  set (g := Guest _ _ _ _ _ _ _ _).
  set (db' := with_table (<[id_ := g]> (invitados db)) db).
  assert (invitados db' !! id_ = Some g) as Hg by apply lookup_insert_eq.
  pose proof (guests_delete db id_ old Hold) as Hp.
  pose proof (guests_delete db' id_ g Hg) as Hp'.
  assert (with_table (delete id_ (invitados db')) db'
          = with_table (delete id_ (invitados db)) db) as Heq.
  { unfold db', with_table. cbn [invitados seq trigger_installed].
    by rewrite delete_insert_eq. }
  rewrite Heq in Hp'.
  rewrite (contar_totales_of_guests db _ Hp), (contar_totales_of_guests db' _ Hp').
  rewrite !filter_cons. cbn [fst snd].
  assert (confirmado g = s) as Hs by apply confirmado_int_of_bool.
  destruct (decide (confirmado g)) as [Hc|Hc]; rewrite Hs in Hc;
    destruct (decide (confirmado old)) as [Ho|Ho];
    destruct (confirmado old); destruct s; try done;
    cbn [length fmap list_fmap int_of_bool];
    change (total_of (?x :: ?l)) with (x + total_of l);
    subst g; cbn [acompanantes]; lia.
Qed.


(** X7: when [contar_totales] returns before and after an update of a
    stored row that the engine can run ([acompanantes] within 64 bits), the
    total is the same, and the confirmed count and the companion sum have
    lost the contribution of the old values and gained that of the new
    ones. *)
Theorem actualizar_then_contar_totales (now id_ : Z) (n a : string)
    (te co : option string) (s : bool) (k : Z) (db : DB) (old : guest)
    (v v' : Z * Z * Z) :
  int64 k →
  invitados db !! id_ = Some old →
  contar_totales_int64 db = Some v →
  contar_totales_int64
    (db_after (actualizar_invitado now id_ n a te co s k db) db) = Some v' →
  v'.1.1 = v.1.1
  ∧ v'.1.2 + (if confirmado old then 1 else 0) = v.1.2 + int_of_bool s
  ∧ v'.2 + (if confirmado old then acompanantes old else 0)
    = v.2 + (if s then k else 0).
Proof.
  intros _ Hold ->%contar_totales_int64_Some ->%contar_totales_int64_Some.
  by apply contar_totales_actualizar.
Qed.

Lemma actualizar_then_contar_totales_witness :
  (int64 1
   ∧ invitados db_ana_luis !! 1 = Some (Guest "Ana" "Perez" None None 0 0 100 100)
   ∧ contar_totales_int64 db_ana_luis = Some (2, 1, 2)
   ∧ contar_totales_int64
       (db_after (actualizar_invitado 200 1 "Ana" "Perez" (Some "") (Some "")
                                      true 1 db_ana_luis) db_ana_luis)
     = Some (2, 2, 3))
  ∧ 2 = 2 ∧ 2 + 0 = 1 + 1 ∧ 3 + 0 = 2 + 1.
Proof.
  split; [by vm_compute|].
  apply (actualizar_then_contar_totales 200 1 "Ana" "Perez" (Some "") (Some "")
           true 1 db_ana_luis (Guest "Ana" "Perez" None None 0 0 100 100)
           (2, 1, 2) (2, 2, 3)); by vm_compute.
Defined.

(** ** The totals and the listing *)

Lemma length_filter_snd (P : guest → Prop) `{∀ g, Decision (P g)}
    (l : list fila) :
  filter P (l.*2) = (filter (fun r => P r.2) l).*2.
Proof.
  induction l as [|r l IH]; [done|].
  rewrite fmap_cons, !filter_cons, IH. by destruct (decide (P r.2)).
Qed.

(** The totals and the listing, with sums taken in [Z]. *)
Lemma contar_totales_listar (db : DB) :
  contar_totales db
  = (Z.of_nat (length (listar_invitados "" false db)),
     Z.of_nat (length (listar_invitados "" true db)),
     total_of ((fun r => acompanantes r.2) <$> listar_invitados "" true db)).
Proof.
  rewrite (contar_totales_of_guests db (guests db)) by done.
  assert (listar_invitados "" false db ≡ₚ map_to_list (invitados db)) as Hall.
  { rewrite listar_invitados_perm. rewrite filter_all; [done|].
    intros r. rewrite holds_where_listar.
    unfold coincide_like, filtro_de. cbn [PyStr.truthy]. by rewrite like_any. }
  assert (listar_invitados "" true db
          ≡ₚ filter (fun r => confirmado r.2) (map_to_list (invitados db)))
    as Hconf.
  { rewrite listar_invitados_perm. erewrite list_filter_iff; [done|].
    intros r. rewrite holds_where_listar.
    unfold coincide_like, filtro_de, confirmado. cbn [PyStr.truthy].
    by rewrite like_any. }
  unfold guests. f_equal; [f_equal|].
  - rewrite length_fmap. f_equal. symmetry. by apply Permutation_length.
  - rewrite length_filter_snd, length_fmap. f_equal. symmetry.
    by apply Permutation_length.
  - rewrite length_filter_snd, <-list_fmap_compose.
    apply total_of_perm, fmap_Permutation. by symmetry.
Qed.

(** X8: whenever [contar_totales] returns, its three totals agree with the
    listing: the total is the length of the unfiltered listing, the
    confirmed count is the length of the unfiltered confirmed-only listing,
    and the companion sum adds up [acompanantes] over the latter. *)
Theorem contar_totales_agrees_with_listar (db : DB) (v : Z * Z * Z) :
  contar_totales_int64 db = Some v →
  v = (Z.of_nat (length (listar_invitados "" false db)),
       Z.of_nat (length (listar_invitados "" true db)),
       total_of ((fun r => acompanantes r.2) <$> listar_invitados "" true db)).
Proof. intros ->%contar_totales_int64_Some. apply contar_totales_listar. Qed.

Lemma contar_totales_agrees_with_listar_witness :
  contar_totales_int64 db_ana_luis = Some (2, 1, 2)
  ∧ (2, 1, 2)
    = (Z.of_nat (length (listar_invitados "" false db_ana_luis)),
       Z.of_nat (length (listar_invitados "" true db_ana_luis)),
       total_of ((fun r => acompanantes r.2)
                   <$> listar_invitados "" true db_ana_luis)).
Proof.
  split; [by vm_compute|].
  apply (contar_totales_agrees_with_listar db_ana_luis (2, 1, 2)).
  by vm_compute.
Defined.

(** ** Filters that list the same rows *)

(** Two filters whose patterns match the same texts give the same listing. *)
Lemma listar_invitados_ext (f1 f2 : string) (sc : bool) (db : DB) :
  (∀ t, Sql.like (filtro_de f1) t = Sql.like (filtro_de f2) t) →
  listar_invitados f1 sc db = listar_invitados f2 sc db.
Proof.
  intros Hlike. unfold listar_invitados. f_equal.
  apply list_filter_iff. intros r. rewrite !holds_where_listar.
  unfold coincide_like. rewrite !Hlike.
  by destruct (telefono r.2), (correo r.2); simpl; rewrite ?Hlike.
Qed.

Lemma lstrip_fix (s : string) :
  starts_with_space s = false → PyStr.lstrip s = s.
Proof. destruct s as [|c s]; [done|]. simpl. by intros ->. Qed.

Lemma rstrip_cons (c : ascii) (s : string) :
  PyStr.rstrip (String c s)
  = match PyStr.rstrip s with
    | EmptyString =>
        if PyStr.isspace c then EmptyString else String c EmptyString
    | r => String c r
    end.
Proof. done. Qed.

Lemma rstrip_fix (s : string) :
  ends_with_space s = false → PyStr.rstrip s = s.
Proof.
  induction s as [|c s IH]; [done|]. destruct s as [|d q].
  - simpl. by intros ->.
  - intros Hend. rewrite rstrip_cons, IH; done.
Qed.

Lemma strip_idem (s : string) : PyStr.strip (PyStr.strip s) = PyStr.strip s.
Proof.
  destruct (strip_spec s) as (_ & _ & _ & _ & _ & Hstart & Hend).
  unfold PyStr.strip at 1. by rewrite lstrip_fix, rstrip_fix.
Qed.

Lemma lstrip_all_space (s : string) : all_space s → PyStr.lstrip s = EmptyString.
Proof.
  induction s as [|c s IH]; [done|]. cbn [all_space PyStr.lstrip].
  intros [Hc Hs]%andb_prop_elim. apply Is_true_true in Hc. rewrite Hc. auto.
Qed.

Lemma strip_all_space (s : string) : all_space s → PyStr.strip s = EmptyString.
Proof. intros Hs. unfold PyStr.strip. by rewrite lstrip_all_space. Qed.

Lemma like_any_any (t : string) :
  Sql.like (String Sql.any_seq (String Sql.any_seq EmptyString)) t = true.
Proof. by rewrite like_any_seq, like_any. Qed.

Lemma like_filtro_de_strip (f t : string) :
  Sql.like (filtro_de f) t = Sql.like (filtro_de (PyStr.strip f)) t.
Proof.
  destruct f as [|c f]; [done|]. unfold filtro_de at 1. cbn [PyStr.truthy].
  destruct (PyStr.strip (String c f)) as [|d q] eqn:E.
  - unfold filtro_de. cbn [PyStr.truthy].
    change (EmptyString ++ ?x)%string with x.
    by rewrite like_any_any, like_any.
  - unfold filtro_de. cbn [PyStr.truthy]. by rewrite <-E, strip_idem.
Qed.

(** X9: white space around the filter text is ignored: a filter and its
    trimmed form give the same listing, and a filter made of white space
    only gives the listing of the empty filter. *)
Theorem listar_ignores_blanks_around_filter (f : string) (sc : bool) (db : DB) :
  listar_invitados f sc db = listar_invitados (PyStr.strip f) sc db
  ∧ (all_space f → listar_invitados f sc db = listar_invitados "" sc db).
Proof.
  assert (listar_invitados f sc db = listar_invitados (PyStr.strip f) sc db) as H.
  { apply listar_invitados_ext. intros t. apply like_filtro_de_strip. }
  split; [done|]. intros Hf. by rewrite H, strip_all_space.
Qed.

Lemma listar_ignores_blanks_around_filter_witness :
  all_space "   "
  ∧ listar_invitados "   " true db_ana_luis = listar_invitados "" true db_ana_luis.
Proof.
  split; [by vm_compute|].
  apply (proj2 (listar_ignores_blanks_around_filter "   " true db_ana_luis)).
  by vm_compute.
Defined.

(** ** Letter case in the filter *)

(** Folding a character keeps what it is to the pattern and to [strip]. *)
Lemma lower_facts (c : ascii) :
  Ascii.eqb (Sql.lower c) Sql.any_seq = Ascii.eqb c Sql.any_seq
  ∧ Ascii.eqb (Sql.lower c) Sql.any_one = Ascii.eqb c Sql.any_one
  ∧ Sql.lower (Sql.lower c) = Sql.lower c
  ∧ PyStr.isspace (Sql.lower c) = PyStr.isspace c.
Proof. destruct c as [[] [] [] [] [] [] [] []]; by vm_compute. Qed.

Lemma like_cons (c : ascii) (p t : string) :
  Sql.like (String c p) t
  = if Ascii.eqb c Sql.any_seq then
      Sql.like p t
      || match t with
         | EmptyString => false
         | String _ t' => Sql.like (String c p) t'
         end
    else if Ascii.eqb c Sql.any_one then
      match t with EmptyString => false | String _ t' => Sql.like p t' end
    else
      match t with
      | EmptyString => false
      | String d t' => Sql.eq_nocase c d && Sql.like p t'
      end.
Proof.
  cbn [Sql.like]. destruct (Ascii.eqb c Sql.any_seq); [by destruct t|].
  by destruct (Ascii.eqb c Sql.any_one).
Qed.

(** The pattern is read up to ASCII case. *)
Lemma like_lower_pattern (p t : string) :
  Sql.like (text_lower p) t = Sql.like p t.
Proof.
  revert t. induction p as [|c p IH]; intros t; [done|].
  cbn [text_lower]. destruct (lower_facts c) as (Hseq & Hone & Hidem & _).
  induction t as [|d t IHt].
  - rewrite !like_cons, Hseq, Hone, IH. done.
  - rewrite (like_cons (Sql.lower c)), (like_cons c), Hseq, Hone, IHt, !IH.
    unfold Sql.eq_nocase. by rewrite Hidem.
Qed.

Lemma lstrip_lower (s : string) :
  PyStr.lstrip (text_lower s) = text_lower (PyStr.lstrip s).
Proof.
  induction s as [|c s IH]; [done|]. cbn [text_lower PyStr.lstrip].
  destruct (lower_facts c) as (_ & _ & _ & ->). by destruct (PyStr.isspace c).
Qed.

Lemma rstrip_lower (s : string) :
  PyStr.rstrip (text_lower s) = text_lower (PyStr.rstrip s).
Proof.
  induction s as [|c s IH]; [done|]. cbn [text_lower].
  rewrite !rstrip_cons, IH. destruct (lower_facts c) as (_ & _ & _ & ->).
  destruct (PyStr.rstrip s); [|done]. by destruct (PyStr.isspace c).
Qed.

Lemma text_lower_app (s q : string) :
  text_lower (s ++ q) = (text_lower s ++ text_lower q)%string.
Proof.
  induction s as [|c s IH]; [done|].
  rewrite !append_cons. cbn [text_lower]. by rewrite append_cons, IH.
Qed.

Lemma filtro_de_lower (f : string) :
  filtro_de (text_lower f) = text_lower (filtro_de f).
Proof.
  destruct f as [|c f]; [done|]. unfold filtro_de.
  change (PyStr.truthy (text_lower (String c f))) with true.
  cbn [PyStr.truthy]. unfold PyStr.strip.
  rewrite lstrip_lower, rstrip_lower.
  change (text_lower (String Sql.any_seq ?x)) with (String Sql.any_seq (text_lower x)).
  by rewrite text_lower_app.
Qed.

(** X10: the listing does not depend on the letter case of the filter: two
    filters that differ only in the case of ASCII letters give the same
    listing. *)
Theorem listar_ignores_case_of_filter (f1 f2 : string) (sc : bool) (db : DB) :
  text_lower f1 = text_lower f2 →
  listar_invitados f1 sc db = listar_invitados f2 sc db.
Proof.
  intros Hf. apply listar_invitados_ext. intros t.
  rewrite <-(like_lower_pattern (filtro_de f1)), <-(like_lower_pattern (filtro_de f2)).
  by rewrite <-!filtro_de_lower, Hf.
Qed.

Lemma listar_ignores_case_of_filter_witness :
  listar_invitados "GOMEZ" false db_ana_luis
  = listar_invitados "gomez" false db_ana_luis.
Proof.
  apply (listar_ignores_case_of_filter "GOMEZ" "gomez" false db_ana_luis).
  by vm_compute.
Defined.

(** ** The confirmed-only listing *)

Lemma StronglySorted_filter {A} (R : relation A) (P : A → Prop)
    `{∀ x, Decision (P x)} (l : list A) :
  StronglySorted R l → StronglySorted R (filter P l).
Proof.
  induction 1 as [|x l Hl IH Hx]; [constructor|].
  rewrite filter_cons. destruct (decide (P x)); [|done].
  constructor; [done|]. rewrite Forall_forall in Hx |- *.
  intros y [_ Hy]%list_elem_of_filter. by apply Hx.
Qed.

(** X11: ticking "solo confirmados" removes the rows with [asistira] other
    than 1 from the listing and changes nothing else: the rows that remain
    keep their order. *)
Theorem listar_confirmados_filters_listing (f : string) (db : DB) :
  listar_invitados f true db
  = filter (fun r => confirmado r.2) (listar_invitados f false db).
Proof.
  apply (Sorted_unique_strong order_listar).
  - intros [i1 g1] [i2 g2] H1 [_ H2]%list_elem_of_filter H12 H21.
    apply listar_invitados_stored in H1, H2.
    pose proof (order_listar_antisym_id _ _ H12 H21). simpl in *. congruence.
  - unfold listar_invitados. apply Sorted_merge_sort, _.
  - apply Sorted.StronglySorted_Sorted, StronglySorted_filter.
    unfold listar_invitados. apply StronglySorted_merge_sort; apply _.
  - rewrite !listar_invitados_perm, list_filter_filter.
    erewrite list_filter_iff; [done|].
    intros r. rewrite !holds_where_listar. unfold confirmado.
    rewrite andb_True, andb_true_r. tauto.
Qed.

(** ** Ids over a sequence of calls *)




(** ** What every reachable state satisfies *)

Lemma actualizar_invitado_absent (now id_ : Z) (n a : string)
    (te co : option string) (s : bool) (k : Z) (db : DB) :
  invitados db !! id_ = None →
  actualizar_invitado now id_ n a te co s k db = Return PyNone db.
Proof.
  intros E. unfold actualizar_invitado, actualizar_stmt.
  rewrite sql_update_absent by done. by rewrite with_table_same.
Qed.

Lemma estado_ok_ejecutar (T now : Z) (o : op) (db : DB) :
  estado_ok T db → T ≤ now → estado_ok now (db_after (ejecutar now o db) db).
Proof.
  intros Hok Hnow. destruct o as [n a te co s k|i n a te co s k|i]; cbn [ejecutar].
  - rewrite insertar_invitado_eq. cbn [db_after]. intros j g. cbn [invitados seq].
    destruct (decide (j = next_id db)) as [->|Hne].
    + rewrite lookup_insert_eq. intros [= <-]. cbn.
      split; [lia|]. split; [by destruct s; auto|]. lia.
    + rewrite lookup_insert_ne by done. intros Hj.
      destruct (Hok j g Hj) as (? & ? & ? & ?). unfold next_id.
      repeat split; try done; lia.
  - destruct (invitados db !! i) as [old|] eqn:Ei.
    + rewrite (actualizar_invitado_present _ _ _ _ _ _ _ _ _ old) by done.
      cbn [db_after]. intros j g. cbn [invitados with_table seq].
      destruct (Hok i old Ei) as (? & ? & ? & ?).
      destruct (decide (j = i)) as [->|Hne].
      * rewrite lookup_insert_eq. intros [= <-]. cbn.
        split; [done|]. split; [by destruct s; auto|].
        destruct (trigger_installed db); lia.
      * rewrite lookup_insert_ne by done. intros Hj.
        destruct (Hok j g Hj) as (? & ? & ? & ?). repeat split; try done; lia.
    + rewrite actualizar_invitado_absent by done. cbn [db_after].
      intros j g Hj. destruct (Hok j g Hj) as (? & ? & ? & ?).
      repeat split; try done; lia.
  - cbn [eliminar_invitado db_after]. intros j g. cbn [invitados with_table seq].
    intros [_ Hj]%lookup_delete_Some.
    destruct (Hok j g Hj) as (? & ? & ? & ?). repeat split; try done; lia.
Qed.

(** X13: starting from a state in which, at clock value [T], every stored id
    is at most the AUTOINCREMENT counter, [asistira] is 0 or 1 and
    [created_at <= updated_at <= T], any sequence of store calls made with a
    clock that does not go backwards leads to a state with the same
    properties at the final clock value. *)
Theorem correr_keeps_estado_ok (T : Z) (ops : list (Z * op)) (db : DB) :
  estado_ok T db → reloj_ok T ops →
  estado_ok (reloj_final T ops) (correr ops db).
Proof.
  revert T db. induction ops as [|[now o] ops IH]; intros T db Hok Hclock.
  { done. }
  destruct Hclock as [Hnow Hclock]. cbn [correr reloj_final].
  apply IH; [|done]. by apply (estado_ok_ejecutar T).
Qed.

Lemma correr_keeps_estado_ok_witness :
  estado_ok 300
    (correr [(100, Insertar "Ana" "Perez" None None false 0);
             (200, Actualizar 1 "Ana" "Perez" (Some "") (Some "") true 1);
             (300, Eliminar 7)] db_inicial).
Proof.
  apply (correr_keeps_estado_ok 0
           [(100, Insertar "Ana" "Perez" None None false 0);
            (200, Actualizar 1 "Ana" "Perez" (Some "") (Some "") true 1);
            (300, Eliminar 7)] db_inicial).
  - intros k g Hk. unfold db_inicial, init_db, empty_db in Hk.
    cbn [invitados] in Hk. by rewrite lookup_empty in Hk.
  - cbn. lia.
Defined.

(** ** The page *)

Lemma truthy_nonempty (s : string) : PyStr.truthy s = true ↔ s ≠ EmptyString.
Proof. by destruct s. Qed.

Lemma strip_no_space_around (s : string) :
  starts_with_space (PyStr.strip s) = false
  ∧ ends_with_space (PyStr.strip s) = false.
Proof. by destruct (strip_spec s) as (_ & _ & _ & _ & _ & ? & ?). Qed.

Lemma nombres_ok_insert (db : DB) (i c : Z) (b : bool) (g : guest) :
  nombres_ok db →
  nombre g ≠ EmptyString → apellidos g ≠ EmptyString →
  starts_with_space (nombre g) = false → ends_with_space (nombre g) = false →
  starts_with_space (apellidos g) = false →
  ends_with_space (apellidos g) = false →
  nombres_ok (Db (<[i := g]> (invitados db)) c b).
Proof.
  intros Hok ? ? ? ? ? ? j x. cbn [invitados].
  destruct (decide (j = i)) as [->|Hne].
  - rewrite lookup_insert_eq. by intros [= <-].
  - rewrite lookup_insert_ne by done. apply Hok.
Qed.

Lemma nombres_ok_manejar (now : Z) (e : evento) (db : DB) :
  nombres_ok db → nombres_ok (manejar now e db).2.
Proof.
  intros Hok. destruct e as [n a te co s k|i n a te co s k|i]; cbn [manejar].
  - unfold alta_submit.
    destruct (PyStr.truthy (PyStr.strip n)) eqn:En; [|done].
    destruct (PyStr.truthy (PyStr.strip a)) eqn:Ea; [|done].
    cbn [negb orb]. rewrite insertar_invitado_eq. cbn [snd].
    apply truthy_nonempty in En, Ea.
    apply nombres_ok_insert; try done; apply strip_no_space_around.
  - unfold guardar_cambios.
    destruct (PyStr.truthy (PyStr.strip n)) eqn:En; [|done].
    destruct (PyStr.truthy (PyStr.strip a)) eqn:Ea; [|done].
    cbn [negb orb]. apply truthy_nonempty in En, Ea.
    destruct (invitados db !! i) as [old|] eqn:Ei.
    + rewrite (actualizar_invitado_present _ _ _ _ _ _ _ _ _ old) by done.
      cbn [snd]. unfold with_table.
      apply nombres_ok_insert; try done; apply strip_no_space_around.
    + by rewrite actualizar_invitado_absent.
  - cbn [eliminar_click eliminar_invitado snd]. intros j g.
    cbn [invitados with_table]. intros [_ Hj]%lookup_delete_Some.
    by apply (Hok j g).
Qed.

(** X14: names entered through the page are never blank: if every stored
    first and last name is non-empty and free of surrounding white space,
    this is still so after any sequence of form submissions, saved edits and
    deletions. *)
Theorem sesion_keeps_nombres_ok (es : list (Z * evento)) (db : DB) :
  nombres_ok db → nombres_ok (sesion es db).
Proof.
  revert db. induction es as [|[now e] es IH]; intros db Hok; [done|].
  cbn [sesion]. by apply IH, nombres_ok_manejar.
Qed.

Lemma sesion_keeps_nombres_ok_witness :
  nombres_ok
    (sesion [(100, Alta " Ana " "Perez" "" "" Si 1);
             (101, Alta "  " "Gomez" "" "" No_sabe_No 0);
             (102, Guardar 1 "Ana" " " "555" "" Si 2);
             (103, Borrar 4)] db_inicial).
Proof.
  apply (sesion_keeps_nombres_ok
           [(100, Alta " Ana " "Perez" "" "" Si 1);
            (101, Alta "  " "Gomez" "" "" No_sabe_No 0);
            (102, Guardar 1 "Ana" " " "555" "" Si 2);
            (103, Borrar 4)] db_inicial).
  intros k g Hk. unfold db_inicial, init_db, empty_db in Hk.
  cbn [invitados] in Hk. by rewrite lookup_empty in Hk.
Defined.

(** X15: on a row that is no longer stored, "Guardar cambios" with
    non-blank names reports success and "Eliminar" reports the deletion, and
    neither changes the database. *)
Theorem handlers_on_missing_row (now row_id : Z) (n a te co : string)
    (s : opcion) (k : Z) (db : DB) :
  invitados db !! row_id = None →
  PyStr.strip n ≠ EmptyString → PyStr.strip a ≠ EmptyString →
  guardar_cambios now row_id n a te co s k db
  = (st_success
       "Cambios guardados. Actualiza la página para ver reflejados los cambios.",
     db)
  ∧ eliminar_click row_id db
    = (st_warning
         "Invitado eliminado. Actualiza la página para refrescar la lista.",
       db).
Proof.
  intros Hi Hn%truthy_nonempty Ha%truthy_nonempty. split.
  - unfold guardar_cambios. rewrite Hn, Ha. cbn [negb orb].
    by rewrite actualizar_invitado_absent.
  - unfold eliminar_click, eliminar_invitado.
    by rewrite delete_id, with_table_same.
Qed.

Lemma handlers_on_missing_row_witness :
  guardar_cambios 200 7 "Ana" "Perez" "" "" Si 1 db_ana_luis
  = (st_success
       "Cambios guardados. Actualiza la página para ver reflejados los cambios.",
     db_ana_luis)
  ∧ eliminar_click 7 db_ana_luis
    = (st_warning
         "Invitado eliminado. Actualiza la página para refrescar la lista.",
       db_ana_luis).
Proof.
  apply (handlers_on_missing_row 200 7 "Ana" "Perez" "" "" Si 1 db_ana_luis);
    by vm_compute.
Defined.

(** ** The WHEN clause of the trigger *)

Lemma update_nested_same_second (d : nat) (now i : Z) (t : gmap Z guest)
    (g : guest) :
  t !! i = Some g → updated_at g = now →
  update_by_id d true true now true i (set_updated_at now) t = None.
Proof.
  revert t g. induction d as [|d IH]; intros t g Hg Hnow.
  - cbn [update_by_id]. rewrite Hg. unfold trg_when. cbn.
    by rewrite Hnow, Z.eqb_refl.
  - cbn [update_by_id]. rewrite Hg. unfold trg_when.
    cbn [set_updated_at updated_at negb orb andb]. rewrite Hnow, Z.eqb_refl.
    by rewrite (IH _ (set_updated_at now g)) by (by rewrite ?lookup_insert_eq).
Qed.

(** X16: were recursive triggers switched on, the WHEN clause would still
    stop the trigger after one firing whenever the clock differs from the
    row's previous [updated_at]; an update in the very second of the
    previous stamp would re-fire until the nesting limit and abort. *)
Theorem trigger_when_clause_bounds_recursion (now i : Z)
    (set_ : guest → guest) (t : gmap Z guest) (old : guest) :
  t !! i = Some old → updated_at (set_ old) = updated_at old →
  (now ≠ updated_at old →
   update_by_id max_trigger_depth false true now true i set_ t
   = Some (<[i := set_updated_at now (set_ old)]> t, [i]))
  ∧ (now = updated_at old →
     update_by_id max_trigger_depth false true now true i set_ t = None).
Proof.
  intros Hold Hset.
  assert (∃ d, max_trigger_depth = S (S d)) as [d ->] by (by eexists).
  split; intros Hnow.
  - cbn [update_by_id]. rewrite Hold. unfold trg_when at 1.
    rewrite Hset, Z.eqb_refl. cbn [negb orb andb].
    rewrite lookup_insert_eq. unfold trg_when.
    cbn [set_updated_at updated_at negb orb andb]. rewrite Hset.
    apply Z.eqb_neq in Hnow. rewrite Hnow. cbn. by rewrite insert_insert_eq.
  - cbn [update_by_id]. rewrite Hold. unfold trg_when at 1.
    rewrite Hset, Z.eqb_refl. cbn [negb orb andb].
    rewrite lookup_insert_eq. unfold trg_when.
    cbn [set_updated_at updated_at negb orb andb]. rewrite Hset, <-Hnow, Z.eqb_refl.
    rewrite (update_nested_same_second d now i _ (set_updated_at now (set_ old)))
      by (by rewrite ?lookup_insert_eq).
    done.
Qed.

Lemma trigger_when_clause_bounds_recursion_witness :
  update_by_id max_trigger_depth false true 200 true 1
    (set_editable "Ana" "Perez" None None true 1) (invitados db_ana_luis)
  = Some (<[1 := Guest "Ana" "Perez" None None 1 1 100 200]>
            (invitados db_ana_luis), [1]).
Proof.
  apply (proj1 (trigger_when_clause_bounds_recursion 200 1
                  (set_editable "Ana" "Perez" None None true 1)
                  (invitados db_ana_luis)
                  (Guest "Ana" "Perez" None None 0 0 100 100)
                  ltac:(by vm_compute) ltac:(done))).
  by vm_compute.
Defined.

(** ** How calls compose *)


(** X18: the last write wins: an update of an id wholly replaces an earlier
    update of the same id, so that the two calls in a row leave the database
    that the second call alone would leave. *)
Theorem actualizar_last_write_wins (now1 now2 id_ : Z)
    (n1 a1 : string) (te1 co1 : option string) (s1 : bool) (k1 : Z)
    (n2 a2 : string) (te2 co2 : option string) (s2 : bool) (k2 : Z) (db : DB) :
  let db1 := db_after (actualizar_invitado now1 id_ n1 a1 te1 co1 s1 k1 db) db in
  actualizar_invitado now2 id_ n2 a2 te2 co2 s2 k2 db1
  = actualizar_invitado now2 id_ n2 a2 te2 co2 s2 k2 db.
Proof.
  intros db1. subst db1. destruct (invitados db !! id_) as [old|] eqn:Ei.
  - rewrite (actualizar_invitado_present now1 _ _ _ _ _ _ _ _ old) by done.
    cbn [db_after].
    erewrite (actualizar_invitado_present now2 _ _ _ _ _ _ _ (with_table _ db))
      by apply lookup_insert_eq.
    rewrite (actualizar_invitado_present now2 _ _ _ _ _ _ _ _ old) by done.
    unfold with_table. cbn [invitados seq trigger_installed created_at updated_at].
    rewrite insert_insert_eq. by destruct (trigger_installed db).
  - by rewrite (actualizar_invitado_absent now1).
Qed.

(** X19: the confirmed count never exceeds the total, neither is negative,
    and the companion sum is not negative as long as no stored row has a
    negative [acompanantes]. *)
Theorem contar_totales_bounds (db : DB) :
  0 ≤ (contar_totales db).1.2 ≤ (contar_totales db).1.1
  ∧ ((∀ i g, invitados db !! i = Some g → 0 ≤ acompanantes g) →
     0 ≤ (contar_totales db).2).
Proof.
  rewrite (contar_totales_of_guests db (guests db)) by done. cbn [fst snd].
  split.
  - pose proof (length_filter (fun g => confirmado g) (guests db)). lia.
  - intros Hpos.
    assert (Forall (fun g => 0 ≤ acompanantes g)
                   (filter (fun g => confirmado g) (guests db))) as Hall.
    { apply Forall_forall. intros g [_ Hg]%list_elem_of_filter.
      unfold guests in Hg. apply list_elem_of_fmap in Hg as ([i g'] & -> & Hg).
      apply elem_of_map_to_list in Hg. by apply (Hpos i). }
    induction Hall as [|g l Hg _ IH]; [done|].
    rewrite fmap_cons. change (total_of (?x :: ?l)) with (x + total_of l). lia.
Qed.

Lemma contar_totales_bounds_witness :
  0 ≤ (contar_totales db_ana_luis).2.
Proof.
  apply (proj2 (contar_totales_bounds db_ana_luis)).
  change (map_Forall (fun (_ : Z) g => 0 ≤ acompanantes g) (invitados db_ana_luis)).
  apply (bool_decide_unpack _). by vm_compute.
Defined.
